(** * sqldef, PostgreSQL adapter: the schema dumper

    A shallow embedding of [adapter/postgres/postgres.go].  Go strings are
    byte strings ([string]); a [map[string]string] is a [gmap string string];
    the connection is a function from a query and its arguments to a result
    set; an accessor is a computation that threads the list of the queries
    issued so far and either fails or returns. *)

From Stdlib Require Import ZArith Ascii DecimalString DecimalPos Permutation.
From stdpp Require Import gmap strings list fin_maps.

Local Open Scope Z_scope.

(** ** Bytes and strings of the Go runtime *)

Definition LF : ascii := "010"%char.
Definition DQ : ascii := "034"%char.

(** The one-byte strings of a newline and of a double quote. *)
Definition nl : string := String LF EmptyString.
Definition dq : string := String DQ EmptyString.

Definition len (s : string) : nat := String.length s.

(** [strings.HasPrefix]. *)
Fixpoint HasPrefix (s prefix : string) {struct prefix} : bool :=
  match prefix, s with
  | EmptyString, _ => true
  | String p prefix', String c s' => if Ascii.eqb c p then HasPrefix s' prefix' else false
  | String _ _, EmptyString => false
  end.

(** [s[n:]]. *)
Fixpoint sliceFrom (n : nat) (s : string) : string :=
  match n, s with
  | O, _ => s
  | S n', String _ s' => sliceFrom n' s'
  | S _, EmptyString => EmptyString
  end.

(** [s[:n]]. *)
Fixpoint sliceTo (n : nat) (s : string) : string :=
  match n, s with
  | O, _ => EmptyString
  | S n', String c s' => String c (sliceTo n' s')
  | S _, EmptyString => EmptyString
  end.

(** [strings.HasSuffix]: [len(s) >= len(suffix) && s[len(s)-len(suffix):] == suffix]. *)
Definition HasSuffix (s suffix : string) : bool :=
  (len suffix <=? len s)%nat && String.eqb (sliceFrom (len s - len suffix) s) suffix.

(** [strings.TrimPrefix] and [strings.TrimSuffix]. *)
Definition TrimPrefix (s prefix : string) : string :=
  if HasPrefix s prefix then sliceFrom (len prefix) s else s.

Definition TrimSuffix (s suffix : string) : string :=
  if HasSuffix s suffix then sliceTo (len s - len suffix) s else s.

(** [strings.Join]. *)
Fixpoint Join (elems : list string) (sep : string) : string :=
  match elems with
  | [] => EmptyString
  | [e] => e
  | e :: rest => e +:+ sep +:+ Join rest sep
  end.

(** Does the byte [c] occur in [s]? *)
Fixpoint containsByte (c : ascii) (s : string) : bool :=
  match s with
  | EmptyString => false
  | String d s' => Ascii.eqb d c || containsByte c s'
  end.

(** [strings.TrimLeft] and [strings.TrimRight] for a cutset of one-byte
    characters, and [strings.Trim], which applies both. *)
Fixpoint TrimLeft (s cutset : string) : string :=
  match s with
  | EmptyString => EmptyString
  | String c s' => if containsByte c cutset then TrimLeft s' cutset else s
  end.

Fixpoint TrimRight (s cutset : string) : string :=
  match s with
  | EmptyString => EmptyString
  | String c s' =>
      match TrimRight s' cutset with
      | EmptyString => if containsByte c cutset then EmptyString else String c EmptyString
      | t => String c t
      end
  end.

Definition Trim (s cutset : string) : string := TrimRight (TrimLeft s cutset) cutset.

(** [strings.ReplaceAll(s, old, "")] for a one-byte [old]: every occurrence
    of the byte is removed. *)
Fixpoint removeByte (c : ascii) (s : string) : string :=
  match s with
  | EmptyString => EmptyString
  | String d s' => if Ascii.eqb d c then removeByte c s' else String d (removeByte c s')
  end.

(** [strings.SplitN(s, sep, 2)] for a one-byte separator: the text before the
    first separator and the text after it, or [s] alone. *)
Fixpoint cutByte (c : ascii) (s : string) : option (string * string) :=
  match s with
  | EmptyString => None
  | String d s' =>
      if Ascii.eqb d c then Some (EmptyString, s')
      else match cutByte c s' with
           | Some (before, after) => Some (String d before, after)
           | None => None
           end
  end.

Definition SplitN2 (s : string) (sep : ascii) : list string :=
  match cutByte sep s with
  | Some (before, after) => [before; after]
  | None => [s]
  end.

(** The verb [%d] of [fmt] on an [int]. *)
Definition fmt_d (n : Z) : string := NilZero.string_of_int (Z.to_int n).

(** ** The table dumper *)

Definition indent : string := "    ".

Record columnConstraint := {
  definition : string;
  name : string
}.

(** The field [Check_] is the field Check of the source. *)
Record column := {
  Name : string;
  dataType : string;
  Length : Z;
  Nullable : bool;
  Default : string;
  IsAutoIncrement : bool;
  IdentityGeneration : string;
  Check_ : option columnConstraint
}.

Definition GetDataType (c : column) : string :=
  if String.eqb (dataType c) "smallint" then
    if IsAutoIncrement c then "smallserial" else dataType c
  else if String.eqb (dataType c) "integer" then
    if IsAutoIncrement c then "serial" else dataType c
  else if String.eqb (dataType c) "bigint" then
    if IsAutoIncrement c then "bigserial" else dataType c
  else if String.eqb (dataType c) "timestamp without time zone" then "timestamp"
  else if String.eqb (dataType c) "time without time zone" then "time"
  else dataType c.

(** A [strings.Builder] is the text written so far; [fmt.Fprint] and
    [fmt.Fprintf] append to it. *)
Definition Builder := string.

Definition Fprint (w : Builder) (s : string) : Builder := w +:+ s.

(** [for i, x := range xs { body }] on a slice, from index [i]. *)
Fixpoint forRange {A St : Type} (body : nat -> A -> St -> St) (i : nat) (xs : list A) (s : St) : St :=
  match xs with
  | [] => s
  | x :: rest => forRange body (S i) rest (body i x s)
  end.

(** The order in which a [range] statement visits the entries of a map is
    chosen by the Go runtime, anew at every loop.  A [rangeOrder] is one such
    choice; it is valid when it visits every entry of the map once. *)
Definition rangeOrder := gmap string string -> list (string * string).

Definition validRange (order : rangeOrder) : Prop :=
  forall m, Permutation (order m) (map_to_list m).

(** The body of the loop over the columns. *)
Definition writeColumn (i : nat) (col : column) (queryBuilder : Builder) : Builder :=
  let queryBuilder := if (0 <? i)%nat then Fprint queryBuilder "," else queryBuilder in
  let queryBuilder := Fprint queryBuilder (nl +:+ indent) in
  let queryBuilder := Fprint queryBuilder (dq +:+ Name col +:+ dq +:+ " " +:+ GetDataType col) in
  let queryBuilder :=
    if 0 <? Length col then Fprint queryBuilder ("(" +:+ fmt_d (Length col) +:+ ")")
    else queryBuilder in
  let queryBuilder :=
    if negb (Nullable col) then Fprint queryBuilder " NOT NULL" else queryBuilder in
  let queryBuilder :=
    if negb (String.eqb (Default col) EmptyString) && negb (IsAutoIncrement col)
    then Fprint queryBuilder (" DEFAULT " +:+ Default col)
    else queryBuilder in
  let queryBuilder :=
    if negb (String.eqb (IdentityGeneration col) EmptyString)
    then Fprint queryBuilder (" GENERATED " +:+ IdentityGeneration col +:+ " AS IDENTITY")
    else queryBuilder in
  match Check_ col with
  | Some chk => Fprint queryBuilder (" CONSTRAINT " +:+ name chk +:+ " " +:+ definition chk)
  | None => queryBuilder
  end.

(** The body of the loops over the index, foreign-key and policy
    definitions, and over the unique constraints. *)
Definition writeStatement (_ : nat) (v : string) (queryBuilder : Builder) : Builder :=
  Fprint queryBuilder (v +:+ ";" +:+ nl).

Definition writeCheckConstraint (_ : nat) (kv : string * string) (queryBuilder : Builder) : Builder :=
  let queryBuilder := Fprint queryBuilder ("," +:+ nl +:+ indent) in
  Fprint queryBuilder ("CONSTRAINT " +:+ kv.1 +:+ " " +:+ kv.2).

Definition writeUniqueConstraint (_ : nat) (kv : string * string) (queryBuilder : Builder) : Builder :=
  Fprint queryBuilder (kv.2 +:+ ";" +:+ nl).

(** The text in [queryBuilder] when [buildDumpTableDDL] returns, with the
    orders the runtime picks for its two loops over a map: [checkOrder] for
    [checkConstraints], [uniqueOrder] for [uniqueConstraints]. *)
Definition queryBuilderText (checkOrder uniqueOrder : rangeOrder)
    (table : string) (columns : list column)
    (pkeyCols indexDefs foreignDefs policyDefs : list string)
    (checkConstraints uniqueConstraints : gmap string string) : Builder :=
  let queryBuilder : Builder := EmptyString in
  let queryBuilder := Fprint queryBuilder ("CREATE TABLE " +:+ table +:+ " (") in
  let queryBuilder := forRange writeColumn 0 columns queryBuilder in
  let queryBuilder :=
    if (0 <? length pkeyCols)%nat then
      let queryBuilder := Fprint queryBuilder ("," +:+ nl +:+ indent) in
      Fprint queryBuilder
        ("PRIMARY KEY (" +:+ dq +:+ Join pkeyCols (dq +:+ ", " +:+ dq) +:+ dq +:+ ")")
    else queryBuilder in
  let queryBuilder := forRange writeCheckConstraint 0 (checkOrder checkConstraints) queryBuilder in
  let queryBuilder := Fprint queryBuilder (nl +:+ ");" +:+ nl) in
  let queryBuilder := forRange writeStatement 0 indexDefs queryBuilder in
  let queryBuilder := forRange writeStatement 0 foreignDefs queryBuilder in
  let queryBuilder := forRange writeStatement 0 policyDefs queryBuilder in
  forRange writeUniqueConstraint 0 (uniqueOrder uniqueConstraints) queryBuilder.

Definition buildDumpTableDDL (checkOrder uniqueOrder : rangeOrder)
    (table : string) (columns : list column)
    (pkeyCols indexDefs foreignDefs policyDefs : list string)
    (checkConstraints uniqueConstraints : gmap string string) : string :=
  TrimSuffix
    (queryBuilderText checkOrder uniqueOrder table columns pkeyCols indexDefs foreignDefs
       policyDefs checkConstraints uniqueConstraints) nl.

(** ** Errors, result sets and the connection *)

(** The two causes a [strconv.NumError] carries. *)
Inductive numErr := ErrSyntax | ErrRange.

(** The values of Go's [error] this file can meet: what the connection
    reports for a query, what [rows.Scan] reports for a row (a wrong number
    of destinations, a NULL for a [string] destination), and what
    [strconv.Atoi] reports. *)
Inductive error :=
  | DriverError (msg : string)
  | ScanArity (columns dests : nat)
  | ScanNull (index : nat)
  | NumError (func num : string) (err : numErr).

(** A cell of a result set is NULL or a text; a row is a list of cells. *)
Definition Row := list (option string).

(** What the connection answers to a query. *)
Inductive reply :=
  | Rows (rows : list Row)
  | Failure (err : error).

Definition DB := string -> list string -> reply.

(** A query as issued: its text and its arguments. *)
Definition Call : Type := string * list string.

(** The zero value of a Go type, the value beside a non-nil error. *)
Class Zero (A : Type) := zero : A.
#[global] Instance string_zero : Zero string := EmptyString.
#[global] Instance list_zero {A} : Zero (list A) := @nil A.
#[global] Instance map_zero : Zero (gmap string string) := (∅ : gmap string string).

(** A Go function with results [(A, error)]: a nil error is [None]. *)
Definition Ret (A : Type) : Type := A * option error.

(** A method of [PostgresDatabase]: it reads the connection and appends the
    queries it issues to the log. *)
Definition M (A : Type) : Type := DB -> list Call -> Ret A * list Call.

Definition ret {A} (a : A) : M A := fun _ log => ((a, None), log).

(** [x, err := m; if err != nil { return zero, err }; k x]. *)
Definition bind {A B} `{Zero B} (m : M A) (k : A -> M B) : M B :=
  fun db log =>
    match m db log with
    | ((a, None), log') => k a db log'
    | ((_, Some err), log') => ((zero, Some err), log')
    end.

Notation "'let*' x ':=' m 'in' k" := (bind m (fun x => k))
  (at level 10, x pattern, m at level 100, k at level 200).

(** A computation that does not touch the connection. *)
Definition lift {A} (r : Ret A) : M A := fun _ log => (r, log).

(** [d.db.Query(query, args...)]. *)
Definition Query (query : string) (args : list string) : M (list Row) :=
  fun db log =>
    (match db query args with
     | Rows rows => (rows, None)
     | Failure err => ([], Some err)
     end, log ++ [(query, args)]).

(** The destinations of a [rows.Scan]: a [string], a [*string], a
    [sql.NullString]. *)
Inductive dest := destString | destStringPtr | destNullString.

Fixpoint convertAssign (i : nat) (dests : list dest) (row : Row) : option error :=
  match dests, row with
  | destString :: _, None :: _ => Some (ScanNull i)
  | _ :: dests', _ :: row' => convertAssign (S i) dests' row'
  | _, _ => None
  end.

(** [rows.Scan(dests...)]: the number of destinations is the number of
    columns, and no [string] destination receives a NULL. *)
Definition Scan (dests : list dest) (row : Row) : option error :=
  if (length row =? length dests)%nat then convertAssign 0 dests row
  else Some (ScanArity (length row) (length dests)).

(** What a destination holds after a successful [Scan]. *)
Definition ptrAt (row : Row) (i : nat) : option string :=
  match row !! i with
  | Some cell => cell
  | None => None
  end.

Definition stringAt (row : Row) (i : nat) : string :=
  match ptrAt row i with
  | Some s => s
  | None => EmptyString
  end.

(** [for rows.Next() { body }], where the body either goes on with the
    variables it updated or returns an error from the function. *)
Fixpoint forRows {A} `{Zero A} (body : Row -> A -> Ret A) (rows : list Row) (acc : A) : Ret A :=
  match rows with
  | [] => (acc, None)
  | row :: rest =>
      match body row acc with
      | (acc', None) => forRows body rest acc'
      | (_, Some err) => (zero, Some err)
      end
  end.

(** ** [strconv.Atoi], on a 64-bit [int] *)

Definition digit (c : ascii) : option Z :=
  let n := Z.of_nat (nat_of_ascii c) in
  if (48 <=? n) && (n <=? 57) then Some (n - 48) else None.

Definition maxUint64 : Z := 2 ^ 64 - 1.

(** The loop of [strconv.ParseUint(s, 10, 64)]. *)
Fixpoint parseUintLoop (s : string) (n : Z) : Z * option numErr :=
  match s with
  | EmptyString => (n, None)
  | String c s' =>
      match digit c with
      | None => (0, Some ErrSyntax)
      | Some d =>
          if maxUint64 / 10 + 1 <=? n then (maxUint64, Some ErrRange)
          else
            let n1 := n * 10 + d in
            if maxUint64 <? n1 then (maxUint64, Some ErrRange)
            else parseUintLoop s' n1
      end
  end.

Definition ParseUint (s : string) : Z * option numErr :=
  match s with
  | EmptyString => (0, Some ErrSyntax)
  | _ => parseUintLoop s 0
  end.

(** [strconv.ParseInt(s, 10, 0)]. *)
Definition ParseInt (s : string) : Z * option numErr :=
  match s with
  | EmptyString => (0, Some ErrSyntax)
  | String c s' =>
      let neg := Ascii.eqb c "-" in
      let digits := if Ascii.eqb c "+" || neg then s' else s in
      match ParseUint digits with
      | (_, Some ErrSyntax) => (0, Some ErrSyntax)
      | (un, _) =>
          let cutoff := 2 ^ 63 in
          if negb neg && (cutoff <=? un) then (cutoff - 1, Some ErrRange)
          else if neg && (cutoff <? un) then (- cutoff, Some ErrRange)
          else (if neg then - un else un, None)
      end
  end.

(** [strconv.Atoi]; its fast path for short texts computes what [ParseInt]
    computes. *)
Definition Atoi (s : string) : Ret Z :=
  match ParseInt s with
  | (n, None) => (n, None)
  | (n, Some e) => (n, Some (NumError "Atoi" s e))
  end.

(** ** [strings.TrimSpace] *)

Definition bytes (codes : list nat) : string :=
  String.string_of_list_ascii (List.map ascii_of_nat codes).

(** The UTF-8 encodings of the runes [unicode.IsSpace] accepts: the six of
    ASCII, U+0085, U+00A0, U+1680, U+2000 to U+200A, U+2028, U+2029, U+202F,
    U+205F and U+3000. *)
Definition spaceRunes : list string :=
  List.map bytes
    [ [9]; [10]; [11]; [12]; [13]; [32]; [194; 133]; [194; 160]; [225; 154; 128];
      [226; 128; 128]; [226; 128; 129]; [226; 128; 130]; [226; 128; 131];
      [226; 128; 132]; [226; 128; 133]; [226; 128; 134]; [226; 128; 135];
      [226; 128; 136]; [226; 128; 137]; [226; 128; 138];
      [226; 128; 168]; [226; 128; 169]; [226; 128; 175]; [226; 129; 159];
      [227; 128; 128] ]%nat.

(** [s] without the space rune it starts with, or ends with, if any. *)
Fixpoint cutSpacePrefix (runes : list string) (s : string) : option string :=
  match runes with
  | [] => None
  | r :: runes' => if HasPrefix s r then Some (sliceFrom (len r) s) else cutSpacePrefix runes' s
  end.

Fixpoint cutSpaceSuffix (runes : list string) (s : string) : option string :=
  match runes with
  | [] => None
  | r :: runes' => if HasSuffix s r then Some (sliceTo (len s - len r) s) else cutSpaceSuffix runes' s
  end.

Fixpoint trimSpaceLeft (fuel : nat) (s : string) : string :=
  match fuel with
  | O => s
  | S fuel' =>
      match cutSpacePrefix spaceRunes s with
      | Some s' => trimSpaceLeft fuel' s'
      | None => s
      end
  end.

Fixpoint trimSpaceRight (fuel : nat) (s : string) : string :=
  match fuel with
  | O => s
  | S fuel' =>
      match cutSpaceSuffix spaceRunes s with
      | Some s' => trimSpaceRight fuel' s'
      | None => s
      end
  end.

(** Every cut removes a byte at least, so [len s] rounds are enough. *)
Definition TrimSpace (s : string) : string :=
  let s := trimSpaceLeft (len s) s in
  trimSpaceRight (len s) s.

(** ** The patterns of [regexp] this file compiles *)

Inductive Regexp :=
  | AtStart (c : ascii)   (* ^c   *)
  | AtEnd (c : ascii)     (* c$   *)
  | Run (c : ascii).      (* [c]+ *)

(** Every maximal run of [c] in [s] is replaced by [repl]; [inRun] says that
    the byte before [s] was a [c]. *)
Fixpoint replaceRuns (c : ascii) (repl : string) (inRun : bool) (s : string) : string :=
  match s with
  | EmptyString => EmptyString
  | String d s' =>
      if Ascii.eqb d c then
        if inRun then replaceRuns c repl true s' else repl +:+ replaceRuns c repl true s'
      else String d (replaceRuns c repl false s')
  end.

(** [re.ReplaceAllString(src, repl)], for a [repl] without [$]. *)
Definition ReplaceAllString (re : Regexp) (src repl : string) : string :=
  match re with
  | AtStart c =>
      if HasPrefix src (String c EmptyString) then repl +:+ sliceFrom 1 src else src
  | AtEnd c =>
      if HasSuffix src (String c EmptyString) then sliceTo (len src - 1) src +:+ repl else src
  | Run c => replaceRuns c repl false src
  end.

(** [re.MatchString(s)]. *)
Definition MatchString (re : Regexp) (s : string) : bool :=
  match re with
  | AtStart c => HasPrefix s (String c EmptyString)
  | AtEnd c => HasSuffix s (String c EmptyString)
  | Run c => containsByte c s
  end.

Definition suffixSemicolon : Regexp := AtEnd ";".
Definition spaces : Regexp := Run " ".
Definition policyRolesPrefixRegex : Regexp := AtStart "{".
Definition policyRolesSuffixRegex : Regexp := AtEnd "}".
Definition r9 : Regexp := AtStart "9".

(** ** The catalog queries *)

Definition viewsQuery : string :=
"select table_schema, table_name, definition from information_schema.tables
		 inner join pg_views on table_name = viewname
		 where table_schema not in ('information_schema', 'pg_catalog', 'repack')
		 and (table_schema != 'public' or table_name != 'pg_buffercache')
		 and table_type = 'VIEW';".

Definition getColumnsQuery : string :=
"WITH
	  columns AS (
	    SELECT
	      s.column_name,
	      s.column_default,
	      s.is_nullable,
	      s.character_maximum_length,
	      CASE
	      WHEN s.data_type IN ('ARRAY', 'USER-DEFINED') THEN format_type(f.atttypid, f.atttypmod)
	      ELSE s.data_type
	      END,
	      s.identity_generation
	    FROM pg_attribute f
	    JOIN pg_class c ON c.oid = f.attrelid JOIN pg_type t ON t.oid = f.atttypid
	    LEFT JOIN pg_attrdef d ON d.adrelid = c.oid AND d.adnum = f.attnum
	    LEFT JOIN pg_namespace n ON n.oid = c.relnamespace
	    LEFT JOIN information_schema.columns s ON s.column_name = f.attname AND s.table_name = c.relname AND s.table_schema = n.nspname
	    WHERE c.relkind = 'r'::char
	    AND n.nspname = $1
	    AND c.relname = $2
	    AND f.attnum > 0
	    ORDER BY f.attnum
	  ),
	  column_constraints AS (
	    SELECT att.attname column_name, tmp.name, tmp.type , tmp.definition
	    FROM (
	      SELECT unnest(con.conkey) AS conkey,
	             pg_get_constraintdef(con.oid, true) AS definition,
	             cls.oid AS relid,
	             con.conname AS name,
	             con.contype AS type
	      FROM   pg_constraint con
	      JOIN   pg_namespace nsp ON nsp.oid = con.connamespace
	      JOIN   pg_class cls ON cls.oid = con.conrelid
	      WHERE  nsp.nspname = $1
	      AND    cls.relname = $2
	      AND    array_length(con.conkey, 1) = 1
	    ) tmp
	    JOIN pg_attribute att ON tmp.conkey = att.attnum AND tmp.relid = att.attrelid
	  ),
	  check_constraints AS (
	    SELECT column_name, name, definition
	    FROM   column_constraints
	    WHERE  type = 'c'
	  )
	SELECT    columns.*, checks.name, checks.definition
	FROM      columns
	LEFT JOIN check_constraints checks USING (column_name);".

Definition getIndexDefsQuery : string :=
"WITH
	  unique_and_pk_constraints AS (
	    SELECT con.conname AS name
	    FROM   pg_constraint con
	    JOIN   pg_namespace nsp ON nsp.oid = con.connamespace
	    JOIN   pg_class cls ON cls.oid = con.conrelid
	    WHERE  con.contype IN ('p', 'u')
	    AND    nsp.nspname = $1
	    AND    cls.relname = $2
	  )
	SELECT indexName, indexdef
	FROM   pg_indexes
	WHERE  schemaname = $1
	AND    tablename = $2
	AND    indexName NOT IN (SELECT name FROM unique_and_pk_constraints)
	".

Definition getTableCheckConstraintsQuery : string :=
"SELECT con.conname, pg_get_constraintdef(con.oid, true)
	FROM   pg_constraint con
	JOIN   pg_namespace nsp ON nsp.oid = con.connamespace
	JOIN   pg_class cls ON cls.oid = con.conrelid
	WHERE  con.contype = 'c'
	AND    nsp.nspname = $1
	AND    cls.relname = $2
	AND    array_length(con.conkey, 1) > 1;".

Definition getUniqueConstraintsQuery : string :=
"SELECT con.conname, pg_get_constraintdef(con.oid)
	FROM   pg_constraint con
	JOIN   pg_namespace nsp ON nsp.oid = con.connamespace
	JOIN   pg_class cls ON cls.oid = con.conrelid
	WHERE  con.contype = 'u'
	AND    nsp.nspname = $1
	AND    cls.relname = $2;".

Definition getPrimaryKeyColumnsQuery : string :=
"SELECT
	tc.table_schema, tc.constraint_name, tc.table_name, kcu.column_name
FROM
	information_schema.table_constraints AS tc
	JOIN information_schema.key_column_usage AS kcu
		USING (table_schema, table_name, constraint_name)
WHERE constraint_type = 'PRIMARY KEY' AND tc.table_schema=$1 AND tc.table_name=$2 ORDER BY kcu.ordinal_position".

Definition getForeignDefsQuery : string :=
"SELECT
	tc.table_schema, tc.constraint_name, tc.table_name, kcu.column_name,
	ccu.table_schema AS foreign_table_schema,
	ccu.table_name AS foreign_table_name,
	ccu.column_name AS foreign_column_name,
	rc.update_rule AS foreign_update_rule,
	rc.delete_rule AS foreign_delete_rule
FROM
	information_schema.table_constraints AS tc
	JOIN information_schema.key_column_usage AS kcu
		ON tc.constraint_name = kcu.constraint_name
	JOIN information_schema.constraint_column_usage AS ccu
		ON tc.constraint_name = ccu.constraint_name
	JOIN information_schema.referential_constraints AS rc
		ON tc.constraint_name = rc.constraint_name
WHERE constraint_type = 'FOREIGN KEY' AND tc.table_schema=$1 AND tc.table_name=$2".

Definition queryPermissive : string :=
  "SELECT policyname, permissive, roles, cmd, qual, with_check FROM pg_policies WHERE schemaname = $1 AND tablename = $2;".

Definition queryNone : string :=
  "SELECT policyname, '', roles, cmd, qual, with_check FROM pg_policies WHERE schemaname = $1 AND tablename = $2;".

Definition versionQuery : string :=
  "SELECT name, setting, min_val, max_val FROM pg_settings WHERE name = 'server_version_num'".

(** ** The accessors *)

Definition SplitTableName (table : string) : string * string :=
  let schema := "public" in
  match SplitN2 table "." with
  | [schema'; table'] => (schema', table')
  | _ => (schema, table)
  end.

Definition viewsRow (row : Row) (ddls : list string) : Ret (list string) :=
  match Scan [destString; destString; destString] row with
  | Some err => (zero, Some err)
  | None =>
      let schema := stringAt row 0 in
      let name := stringAt row 1 in
      let definition := stringAt row 2 in
      let definition := TrimSpace definition in
      let definition := removeByte LF definition in
      let definition := ReplaceAllString suffixSemicolon definition EmptyString in
      let definition := ReplaceAllString spaces definition " " in
      (ddls ++ ["CREATE VIEW " +:+ (schema +:+ "." +:+ name) +:+ " AS " +:+ definition +:+ ";"], None)
  end.

Definition Views : M (list string) :=
  let* rows := Query viewsQuery [] in
  lift (forRows viewsRow rows []).

Definition Triggers : M (list string) := ret [].

Definition getColumnsRow (row : Row) (cols : list column) : Ret (list column) :=
  match Scan [destString; destStringPtr; destString; destStringPtr; destString;
              destStringPtr; destStringPtr; destStringPtr] row with
  | Some err => (zero, Some err)
  | None =>
      let colName := stringAt row 0 in
      let colDefault := ptrAt row 1 in
      let isNullable := stringAt row 2 in
      let maxLenStr := ptrAt row 3 in
      let dataType' := stringAt row 4 in
      let idGen := ptrAt row 5 in
      let checkName := ptrAt row 6 in
      let checkDefinition := ptrAt row 7 in
      match (match maxLenStr with Some s => Atoi s | None => (0, None) end) with
      | (_, Some err) => (zero, Some err)
      | (maxLen, None) =>
          let col :=
            {| Name := Trim colName (dq +:+ " ");
               dataType := dataType';
               Length := maxLen;
               Nullable := String.eqb isNullable "YES";
               Default := match colDefault with Some d => d | None => EmptyString end;
               IsAutoIncrement :=
                 match colDefault with Some d => HasPrefix d "nextval(" | None => false end;
               IdentityGeneration := match idGen with Some g => g | None => EmptyString end;
               Check_ :=
                 match checkName, checkDefinition with
                 | Some n, Some d => Some {| definition := d; name := n |}
                 | _, _ => None
                 end |} in
          (cols ++ [col], None)
      end
  end.

Definition getColumns (table : string) : M (list column) :=
  let '(schema, table) := SplitTableName table in
  let* rows := Query getColumnsQuery [schema; table] in
  lift (forRows getColumnsRow rows []).

Definition getIndexDefsRow (row : Row) (indexes : list string) : Ret (list string) :=
  match Scan [destString; destString] row with
  | Some err => (zero, Some err)
  | None =>
      let indexName := stringAt row 0 in
      let indexdef := stringAt row 1 in
      let indexName := Trim indexName (dq +:+ " ") in
      (indexes ++ [indexdef], None)
  end.

Definition getIndexDefs (table : string) : M (list string) :=
  let '(schema, table) := SplitTableName table in
  let* rows := Query getIndexDefsQuery [schema; table] in
  lift (forRows getIndexDefsRow rows []).

Definition getTableCheckConstraintsRow (row : Row) (result : gmap string string)
    : Ret (gmap string string) :=
  match Scan [destString; destString] row with
  | Some err => (zero, Some err)
  | None =>
      let constraintName := stringAt row 0 in
      let constraintDef := stringAt row 1 in
      (<[constraintName := constraintDef]> result, None)
  end.

Definition getTableCheckConstraints (tableName : string) : M (gmap string string) :=
  let '(schema, table) := SplitTableName tableName in
  let* rows := Query getTableCheckConstraintsQuery [schema; table] in
  lift (forRows getTableCheckConstraintsRow rows ∅).

Definition getUniqueConstraintsRow (tableName : string) (row : Row) (result : gmap string string)
    : Ret (gmap string string) :=
  match Scan [destString; destString] row with
  | Some err => (zero, Some err)
  | None =>
      let constraintName := stringAt row 0 in
      let constraintDef := stringAt row 1 in
      (<[constraintName :=
           "ALTER TABLE " +:+ tableName +:+ " ADD CONSTRAINT " +:+ constraintName
             +:+ " " +:+ constraintDef]> result, None)
  end.

Definition getUniqueConstraints (tableName : string) : M (gmap string string) :=
  let '(schema, table) := SplitTableName tableName in
  let* rows := Query getUniqueConstraintsQuery [schema; table] in
  lift (forRows (getUniqueConstraintsRow tableName) rows ∅).

Definition getPrimaryKeyColumnsRow (row : Row) (columnNames : list string) : Ret (list string) :=
  match Scan [destString; destString; destString; destString] row with
  | Some err => (zero, Some err)
  | None =>
      let columnName := stringAt row 3 in
      (columnNames ++ [columnName], None)
  end.

Definition getPrimaryKeyColumns (table : string) : M (list string) :=
  let '(schema, table) := SplitTableName table in
  let* rows := Query getPrimaryKeyColumnsQuery [schema; table] in
  lift (forRows getPrimaryKeyColumnsRow rows []).

Definition getForeignDefsRow (row : Row) (defs : list string) : Ret (list string) :=
  match Scan [destString; destString; destString; destString; destString;
              destString; destString; destString; destString] row with
  | Some err => (zero, Some err)
  | None =>
      let tableSchema := stringAt row 0 in
      let constraintName := stringAt row 1 in
      let tableName := stringAt row 2 in
      let columnName := stringAt row 3 in
      let foreignTableSchema := stringAt row 4 in
      let foreignTableName := stringAt row 5 in
      let foreignColumnName := stringAt row 6 in
      let foreignUpdateRule := stringAt row 7 in
      let foreignDeleteRule := stringAt row 8 in
      let def :=
        "ALTER TABLE ONLY " +:+ tableSchema +:+ "." +:+ tableName +:+ " ADD CONSTRAINT "
          +:+ constraintName +:+ " FOREIGN KEY (" +:+ columnName +:+ ") REFERENCES "
          +:+ foreignTableSchema +:+ "." +:+ foreignTableName +:+ "(" +:+ foreignColumnName
          +:+ ") ON UPDATE " +:+ foreignUpdateRule +:+ " ON DELETE " +:+ foreignDeleteRule in
      (defs ++ [def], None)
  end.

Definition getForeignDefs (table : string) : M (list string) :=
  let '(schema, table) := SplitTableName table in
  let* rows := Query getForeignDefsQuery [schema; table] in
  lift (forRows getForeignDefsRow rows []).

Definition versionRow (row : Row) (version : string) : Ret string :=
  match Scan [destString; destString; destString; destString] row with
  | Some err => (EmptyString, Some err)
  | None =>
      let setting := stringAt row 1 in
      (setting, None)
  end.

Definition Version : M string :=
  let* rows := Query versionQuery [] in
  lift (forRows versionRow rows EmptyString).

(** The body of the loop over the policy rows; [table] is the table name
    without its schema, which [getPolicyDefs] has assigned to its parameter
    by then. *)
Definition getPolicyDefsRow (table : string) (row : Row) (defs : list string) : Ret (list string) :=
  match Scan [destString; destString; destString; destString;
              destNullString; destNullString] row with
  | Some err => (zero, Some err)
  | None =>
      let policyName := stringAt row 0 in
      let permissive := stringAt row 1 in
      let roles := stringAt row 2 in
      let cmd := stringAt row 3 in
      let using_ := ptrAt row 4 in
      let withCheck := ptrAt row 5 in
      let roles := ReplaceAllString policyRolesPrefixRegex roles EmptyString in
      let roles := ReplaceAllString policyRolesSuffixRegex roles EmptyString in
      let def :=
        "CREATE POLICY " +:+ policyName +:+ " ON " +:+ table +:+ " AS " +:+ permissive
          +:+ " FOR " +:+ cmd +:+ " TO " +:+ roles in
      let def := match using_ with Some u => def +:+ (" USING " +:+ u) | None => def end in
      let def := match withCheck with Some w => def +:+ (" WITH CHECK " +:+ w) | None => def end in
      (defs ++ [def +:+ ";"], None)
  end.

Definition getPolicyDefs (table : string) : M (list string) :=
  let* version := Version in
  let query := if MatchString r9 version then queryNone else queryPermissive in
  let '(schema, table) := SplitTableName table in
  let* rows := Query query [schema; table] in
  lift (forRows (getPolicyDefsRow table) rows []).

Definition DumpTableDDL (checkOrder uniqueOrder : rangeOrder) (table : string) : M string :=
  let* cols := getColumns table in
  let* pkeyCols := getPrimaryKeyColumns table in
  let* indexDefs := getIndexDefs table in
  let* foreignDefs := getForeignDefs table in
  let* policyDefs := getPolicyDefs table in
  let* checkConstraints := getTableCheckConstraints table in
  let* uniqueConstraints := getUniqueConstraints table in
  ret (buildDumpTableDDL checkOrder uniqueOrder table cols pkeyCols indexDefs foreignDefs
         policyDefs checkConstraints uniqueConstraints).

(** ** The rendered text, clause by clause *)

(** The text of a column after its indentation: the quoted name, the
    canonical type, and the optional clauses in their order; [defaultClause]
    is the slot of the DEFAULT clause. *)
Definition lengthClause (col : column) : string :=
  if 0 <? Length col then "(" +:+ fmt_d (Length col) +:+ ")" else EmptyString.

Definition notNullClause (col : column) : string :=
  if Nullable col then EmptyString else " NOT NULL".

Definition identityClause (col : column) : string :=
  if String.eqb (IdentityGeneration col) EmptyString then EmptyString
  else " GENERATED " +:+ IdentityGeneration col +:+ " AS IDENTITY".

Definition checkClause (col : column) : string :=
  match Check_ col with
  | Some chk => " CONSTRAINT " +:+ name chk +:+ " " +:+ definition chk
  | None => EmptyString
  end.

Definition columnHead (col : column) : string :=
  dq +:+ Name col +:+ dq +:+ " " +:+ GetDataType col +:+ lengthClause col +:+ notNullClause col.

Definition columnTail (col : column) : string :=
  identityClause col +:+ checkClause col.

Definition defaultClause (col : column) : string :=
  if IsAutoIncrement col then EmptyString
  else if String.eqb (Default col) EmptyString then EmptyString
  else " DEFAULT " +:+ Default col.

Definition columnLine (col : column) : string :=
  columnHead col +:+ defaultClause col +:+ columnTail col.

(** The separator before the column of index [i]. *)
Definition columnSeparator (i : nat) : string :=
  match i with O => EmptyString | S _ => "," end.

Fixpoint concatAll (parts : list string) : string :=
  match parts with
  | [] => EmptyString
  | part :: rest => part +:+ concatAll rest
  end.

Definition primaryKeyClause (pkeyCols : list string) : string :=
  match pkeyCols with
  | [] => EmptyString
  | _ => "," +:+ nl +:+ indent +:+ "PRIMARY KEY (" +:+ dq +:+ Join pkeyCols (dq +:+ ", " +:+ dq)
           +:+ dq +:+ ")"
  end.

Definition constraintClause (kv : string * string) : string :=
  "," +:+ nl +:+ indent +:+ "CONSTRAINT " +:+ kv.1 +:+ " " +:+ kv.2.

(** A statement of the tail, on a line of its own. *)
Definition statementLine (v : string) : string := nl +:+ v +:+ ";".

(** The sections of a table's DDL in their order, for the check constraints
    [checks] and the unique constraints [uniques] in the order given. *)
Definition ddlText (table : string) (columns : list column) (pkeyCols : list string)
    (checks : list (string * string)) (indexDefs foreignDefs policyDefs : list string)
    (uniques : list (string * string)) : string :=
  "CREATE TABLE " +:+ table +:+ " ("
    +:+ Join (List.map (fun col => nl +:+ indent +:+ columnLine col) columns) ","
    +:+ primaryKeyClause pkeyCols
    +:+ concatAll (List.map constraintClause checks)
    +:+ nl +:+ ");"
    +:+ concatAll (List.map statementLine
                     (indexDefs ++ foreignDefs ++ policyDefs ++ List.map snd uniques)).

(** The text of a table's DDL around one of its columns: what comes before
    the line of the column, and what comes after it. *)
Definition tableHead (table : string) (before : list column) : string :=
  "CREATE TABLE " +:+ table +:+ " ("
    +:+ concatAll (List.map (fun col => (nl +:+ indent +:+ columnLine col) +:+ ",") before).

Definition tableRest (after : list column) (pkeyCols : list string)
    (checks : list (string * string)) (indexDefs foreignDefs policyDefs : list string)
    (uniques : list (string * string)) : string :=
  concatAll (List.map (fun col => "," +:+ (nl +:+ indent +:+ columnLine col)) after)
    +:+ primaryKeyClause pkeyCols
    +:+ concatAll (List.map constraintClause checks)
    +:+ nl +:+ ");"
    +:+ concatAll (List.map statementLine
                     (indexDefs ++ foreignDefs ++ policyDefs ++ List.map snd uniques)).

(** The text of a table's DDL up to the closing parenthesis and semicolon. *)
Definition tableBody (table : string) (columns : list column) (pkeyCols : list string)
    (checks : list (string * string)) : string :=
  "CREATE TABLE " +:+ table +:+ " ("
    +:+ Join (List.map (fun col => nl +:+ indent +:+ columnLine col) columns) ","
    +:+ primaryKeyClause pkeyCols
    +:+ concatAll (List.map constraintClause checks)
    +:+ nl +:+ ");".

(** The last byte of a text. *)
Fixpoint lastByte (s : string) : option ascii :=
  match s with
  | EmptyString => None
  | String c EmptyString => Some c
  | String _ s' => lastByte s'
  end.

(** ** A view's statement *)

(** A run of [c] collapsed to one [c]: a [c] that another [c] follows is
    dropped. *)
Fixpoint collapseRuns (c : ascii) (s : string) : string :=
  match s with
  | EmptyString => EmptyString
  | String a s' =>
      if Ascii.eqb a c && HasPrefix s' (String c EmptyString) then collapseRuns c s'
      else String a (collapseRuns c s')
  end.

(** Does [s] hold two [c] in a row? *)
Fixpoint hasDouble (c : ascii) (s : string) : bool :=
  match s with
  | EmptyString => false
  | String a s' => (Ascii.eqb a c && HasPrefix s' (String c EmptyString)) || hasDouble c s'
  end.

(** The definition of a view without its newlines: the surrounding white
    space trimmed, then every newline removed. *)
Definition viewOneLine (definition : string) : string :=
  removeByte LF (TrimSpace definition).

(** The body of a view: its one-line definition, one semicolon at its end
    stripped, every run of spaces collapsed to one space. *)
Definition viewBody (definition : string) : string :=
  collapseRuns " " (TrimSuffix (viewOneLine definition) ";").

Definition viewStatement (schema name definition : string) : string :=
  "CREATE VIEW " +:+ schema +:+ "." +:+ name +:+ " AS " +:+ viewBody definition +:+ ";".

(** A row of the views query: schema, name, definition, none of them NULL. *)
Definition viewCells (view : string * string * string) : Row :=
  [Some view.1.1; Some view.1.2; Some view.2].

(** ** A policy's statement *)

Record policy := {
  policyname : string;
  permissive : string;
  roles : string;
  cmd : string;
  qual : option string;
  with_check : option string
}.

(** A row of the policies query: the first four columns are not NULL. *)
Definition policyCells (p : policy) : Row :=
  [Some (policyname p); Some (permissive p); Some (roles p); Some (cmd p); qual p; with_check p].

(** The roles without one opening brace at the start and one closing brace
    at the end, each removed only when it is there. *)
Definition stripBraces (roles : string) : string :=
  TrimSuffix (TrimPrefix roles "{") "}".

Definition policyStatement (table : string) (p : policy) : string :=
  "CREATE POLICY " +:+ policyname p +:+ " ON " +:+ table +:+ " AS " +:+ permissive p
    +:+ " FOR " +:+ cmd p +:+ " TO " +:+ stripBraces (roles p)
    +:+ match qual p with Some q => " USING " +:+ q | None => EmptyString end
    +:+ match with_check p with Some w => " WITH CHECK " +:+ w | None => EmptyString end
    +:+ ";".

(** ** Running an accessor *)

(** What an accessor returns, and the queries it issues, from an empty log. *)
Definition run {A} (m : M A) (db : DB) : Ret A := (m db []).1.
Definition issued {A} (m : M A) (db : DB) : list Call := (m db []).2.

(** How often a query text occurs in a log. *)
Definition countCalls (query : string) (log : list Call) : nat :=
  length (List.filter (fun call : Call => String.eqb call.1 query) log).

(** The first error of a sequence of calls, if one failed. *)
Fixpoint firstError (errs : list (option error)) : option error :=
  match errs with
  | [] => None
  | Some err :: _ => Some err
  | None :: rest => firstError rest
  end.

(** ** The other accessors and the connection string *)

Definition tableNamesQuery : string :=
"select table_schema, table_name from information_schema.tables
		 where table_schema not in ('information_schema', 'pg_catalog')
		 and (table_schema != 'public' or table_name != 'pg_buffercache')
		 and table_type = 'BASE TABLE';".

Definition typesQuery : string :=
"select t.typname, string_agg(e.enumlabel, ' ')
		 from pg_enum e
		 join pg_type t on e.enumtypid = t.oid
		 group by t.typname;".

Definition tableNamesRow (row : Row) (tables : list string) : Ret (list string) :=
  match Scan [destString; destString] row with
  | Some err => (zero, Some err)
  | None =>
      let schema := stringAt row 0 in
      let name := stringAt row 1 in
      (tables ++ [schema +:+ "." +:+ name], None)
  end.

Definition TableNames : M (list string) :=
  let* rows := Query tableNamesQuery [] in
  lift (forRows tableNamesRow rows []).

(** [strings.Split(s, sep)] for a one-byte separator: the texts between the
    separators, one more than there are separators. *)
Fixpoint Split (s : string) (sep : ascii) : list string :=
  match s with
  | EmptyString => [EmptyString]
  | String c s' =>
      if Ascii.eqb c sep then EmptyString :: Split s' sep
      else match Split s' sep with
           | piece :: pieces => String c piece :: pieces
           | [] => [String c EmptyString]
           end
  end.

Definition typesRow (row : Row) (ddls : list string) : Ret (list string) :=
  match Scan [destString; destString] row with
  | Some err => (zero, Some err)
  | None =>
      let typeName := stringAt row 0 in
      let labels := stringAt row 1 in
      let enumLabels :=
        forRange (fun _ label enumLabels => enumLabels ++ ["'" +:+ label +:+ "'"])
          0 (Split labels " ") [] in
      (ddls ++ ["CREATE TYPE " +:+ typeName +:+ " AS ENUM (" +:+ Join enumLabels ", " +:+ ");"],
       None)
  end.

Definition Types : M (list string) :=
  let* rows := Query typesQuery [] in
  lift (forRows typesRow rows []).

(** The fields of [adapter.Config] that [postgresBuildDSN] reads. *)
Record Config := {
  User : string;
  Password : string;
  DbName : string;
  Host : string;
  Port : Z;
  Socket : string
}.

(** The environment [os.LookupEnv] reads. *)
Definition Env := string -> option string.

(** [url.QueryEscape]: letters, digits and the four marks stay, a space
    becomes a plus sign, every other byte becomes a percent sign and its two
    upper-case hexadecimal digits. *)
Definition isAlnum (c : ascii) : bool :=
  let n := nat_of_ascii c in
  ((48 <=? n) && (n <=? 57) || (65 <=? n) && (n <=? 90) || (97 <=? n) && (n <=? 122))%nat.

Definition shouldEscape (c : ascii) : bool :=
  negb (isAlnum c || containsByte c "-_.~").

Definition upperhex (n : nat) : ascii :=
  match String.get n "0123456789ABCDEF" with
  | Some c => c
  | None => "0"%char
  end.

Fixpoint QueryEscape (s : string) : string :=
  match s with
  | EmptyString => EmptyString
  | String c s' =>
      if Ascii.eqb c " " then String "+" (QueryEscape s')
      else if shouldEscape c then
        String "%" (String (upperhex (nat_of_ascii c / 16))
                      (String (upperhex (nat_of_ascii c mod 16)) (QueryEscape s')))
      else String c (QueryEscape s')
  end.

Definition postgresBuildDSN (lookupEnv : Env) (config : Config) : string :=
  let user := User config in
  let password := Password config in
  let database := DbName config in
  let host :=
    if String.eqb (Socket config) EmptyString
    then Host config +:+ ":" +:+ fmt_d (Port config)
    else Socket config in
  let options : list string := [] in
  let options :=
    match lookupEnv "PGSSLMODE" with
    | Some sslmode => options ++ ["sslmode=" +:+ sslmode]
    | None => options
    end in
  let options :=
    match lookupEnv "PGSSLROOTCERT" with
    | Some sslrootcert => options ++ ["sslrootcert=" +:+ sslrootcert]
    | None => options
    end in
  "postgres://" +:+ QueryEscape user +:+ ":" +:+ QueryEscape password +:+ "@" +:+ host
    +:+ "/" +:+ database +:+ "?" +:+ Join options "&".

(** What [QueryEscape] has escaped, read back: a plus sign is a space, a
    percent sign and two hexadecimal digits are the byte of that value. *)
Definition hexValue (c : ascii) : nat :=
  let n := nat_of_ascii c in
  if ((48 <=? n) && (n <=? 57))%nat then (n - 48)%nat
  else if ((65 <=? n) && (n <=? 70))%nat then (n - 55)%nat
  else 0%nat.

Fixpoint unescape (s : string) : string :=
  match s with
  | EmptyString => EmptyString
  | String c s' =>
      if Ascii.eqb c "+" then String " " (unescape s')
      else if Ascii.eqb c "%" then
        match s' with
        | String h (String l s'') =>
            String (ascii_of_nat (16 * hexValue h + hexValue l)) (unescape s'')
        | _ => String c (unescape s')
        end
      else String c (unescape s')
  end.

(** ** What the other accessors are measured against *)

(** A name in double quotes. *)
Definition quoted (s : string) : string := dq +:+ s +:+ dq.

(** How often the byte [c] occurs in [s]. *)
Fixpoint countByte (c : ascii) (s : string) : nat :=
  match s with
  | EmptyString => O
  | String d s' => ((if Ascii.eqb d c then 1 else 0) + countByte c s')%nat
  end.

(** The first byte of a text. *)
Definition firstByte (s : string) : option ascii :=
  match s with
  | EmptyString => None
  | String c _ => Some c
  end.

(** Are all the bytes of [s] accepted by [ok]? *)
Fixpoint allBytes (ok : ascii -> bool) (s : string) : bool :=
  match s with
  | EmptyString => true
  | String c s' => ok c && allBytes ok s'
  end.

(** The bytes [QueryEscape] can write. *)
Definition isEscaped (c : ascii) : bool :=
  isAlnum c || containsByte c "-_.~+%".

(** The queries of a [DumpTableDDL] that fails nowhere, in their order, for
    a server of the given version. *)
Definition dumpQueries (table version : string) : list Call :=
  let args := [(SplitTableName table).1; (SplitTableName table).2] in
  [ (getColumnsQuery, args);
    (getPrimaryKeyColumnsQuery, args);
    (getIndexDefsQuery, args);
    (getForeignDefsQuery, args);
    (versionQuery, []);
    (if HasPrefix version "9" then queryNone else queryPermissive, args);
    (getTableCheckConstraintsQuery, args);
    (getUniqueConstraintsQuery, args) ].

(** The rows of a two-column result set without NULL. *)
Definition pairCells (kv : string * string) : Row := [Some kv.1; Some kv.2].

(** The statement [getUniqueConstraints] stores for a constraint. *)
Definition uniqueStatement (tableName constraintName constraintDef : string) : string :=
  "ALTER TABLE " +:+ tableName +:+ " ADD CONSTRAINT " +:+ constraintName +:+ " "
    +:+ constraintDef.

(** ** Sample catalog states *)

Definition idColumn : column :=
  {| Name := "id"; dataType := "integer"; Length := 0; Nullable := false;
     Default := "nextval('users_id_seq'::regclass)"; IsAutoIncrement := true;
     IdentityGeneration := EmptyString; Check_ := None |}.

Definition emailColumn : column :=
  {| Name := "email"; dataType := "character varying"; Length := 255; Nullable := false;
     Default := "'nobody'::character varying"; IsAutoIncrement := false;
     IdentityGeneration := EmptyString; Check_ := None |}.

Definition createdColumn : column :=
  {| Name := "created_at"; dataType := "timestamp without time zone"; Length := 0;
     Nullable := true; Default := EmptyString; IsAutoIncrement := false;
     IdentityGeneration := EmptyString; Check_ := None |}.

Definition idRow : Row :=
  [Some "id"; Some "nextval('users_id_seq'::regclass)"; Some "NO"; None; Some "integer";
   None; None; None].

Definition oneCheck : gmap string string := <["a_check" := "CHECK (a > 0)"]> ∅.

Definition twoChecks : gmap string string :=
  <["b_check" := "CHECK (b > a)"]> (<["a_check" := "CHECK (a > 0)"]> ∅).

Definition twoUniques : gmap string string :=
  <["u_b" := "ALTER TABLE public.t ADD CONSTRAINT u_b UNIQUE (b)"]>
    (<["u_a" := "ALTER TABLE public.t ADD CONSTRAINT u_a UNIQUE (a)"]> ∅).

(** Two orders a [range] may take: the map's own enumeration and its
    reverse. *)
Definition forwardOrder : rangeOrder := map_to_list.
Definition backwardOrder : rangeOrder := fun m => rev (map_to_list m).

Definition emailRow : Row :=
  [Some "email"; Some "'nobody'::character varying"; Some "NO"; Some "255";
   Some "character varying"; None; None; None].

(** A catalog row whose character length is not a number. *)
Definition badLengthRow : Row :=
  [Some "email"; None; Some "NO"; Some "25x"; Some "character varying"; None; None; None].

Definition sampleViewDefinition : string :=
  " SELECT a," +:+ nl +:+ "    b   FROM t;" +:+ nl.

Definition samplePolicy (permissive : string) : policy :=
  {| policyname := "p_users"; permissive := permissive; roles := "{alice,bob}"; cmd := "ALL";
     qual := Some "(id > 0)"; with_check := None |}.

(** A server of the given version with the table public.users: two columns,
    a primary key, a policy and a view. *)
Definition sampleDB (version : string) : DB := fun query args =>
  if String.eqb query versionQuery then
    Rows [[Some "server_version_num"; Some version; Some version; Some version]]
  else if String.eqb query getColumnsQuery then Rows [idRow; emailRow]
  else if String.eqb query getPrimaryKeyColumnsQuery then
    Rows [[Some "public"; Some "users_pkey"; Some "users"; Some "id"]]
  else if String.eqb query queryNone then Rows [policyCells (samplePolicy EmptyString)]
  else if String.eqb query queryPermissive then Rows [policyCells (samplePolicy "PERMISSIVE")]
  else if String.eqb query viewsQuery then
    Rows [viewCells ("public", "v", sampleViewDefinition)]
  else Rows [].

(** The same server with a character length that is not a number. *)
Definition badLengthDB : DB := fun query args =>
  if String.eqb query getColumnsQuery then Rows [idRow; badLengthRow]
  else sampleDB "130005" query args.

(** A server whose settings hold no version. *)
Definition noVersionDB : DB := fun query args =>
  if String.eqb query versionQuery then Rows [] else sampleDB "130005" query args.

(** The statement of an enum type with the given labels. *)
Definition enumStatement (typeName : string) (labels : list string) : string :=
  "CREATE TYPE " +:+ typeName +:+ " AS ENUM ("
    +:+ Join (List.map (fun label => "'" +:+ label +:+ "'") labels) ", " +:+ ");".

(** A catalog row whose column name comes in double quotes. *)
Definition quotedNameRow : Row :=
  [Some (dq +:+ "first name" +:+ dq +:+ " "); None; Some "YES"; None; Some "text";
   None; None; None].

(** The row of a column age with a check constraint, and a server whose
    column age has two of them. *)
Definition ageRow (checkName checkDefinition : string) : Row :=
  [Some "age"; None; Some "YES"; None; Some "integer"; None; Some checkName;
   Some checkDefinition].

Definition twoChecksDB : DB := fun query args =>
  if String.eqb query getColumnsQuery then
    Rows [ageRow "age_min" "CHECK (age >= 0)"; ageRow "age_max" "CHECK (age < 150)"]
  else sampleDB "130005" query args.

(** A server with a unique constraint, and with two rows of one check
    constraint name. *)
Definition uniqueDB : DB := fun query args =>
  if String.eqb query getUniqueConstraintsQuery then
    Rows [pairCells ("users_email_key", "UNIQUE (email)")]
  else if String.eqb query getTableCheckConstraintsQuery then
    Rows [pairCells ("dates_check", "CHECK (starts > 0)");
          pairCells ("dates_check", "CHECK (ends > starts)")]
  else sampleDB "130005" query args.

Definition sampleConfig : Config :=
  {| User := "postgres"; Password := "p@ss:w/rd"; DbName := "app"; Host := "127.0.0.1";
     Port := 5432; Socket := EmptyString |}.

(** A numeric column whose default is a sequence. *)
Definition numericSequenceRow : Row :=
  [Some "amount"; Some "nextval('amount_seq'::regclass)"; Some "NO"; None; Some "numeric";
   None; None; None].

Definition numericSequenceColumn : column :=
  {| Name := "amount"; dataType := "numeric"; Length := 0; Nullable := false;
     Default := "nextval('amount_seq'::regclass)"; IsAutoIncrement := true;
     IdentityGeneration := EmptyString; Check_ := None |}.

(** A server with two tables, and one where a table name is NULL. *)
Definition catalogDB : DB := fun query args =>
  if String.eqb query tableNamesQuery then
    Rows [pairCells ("public", "users"); pairCells ("audit", "log")]
  else sampleDB "130005" query args.

Definition nullNameDB : DB := fun query args =>
  if String.eqb query tableNamesQuery then
    Rows [pairCells ("public", "users"); [Some "audit"; None]; pairCells ("audit", "log")]
  else sampleDB "130005" query args.

(** * Properties *)

(** ** Texts *)

Lemma app_nil_r (s : string) : s +:+ EmptyString = s.
Proof. induction s as [|c s IH]; [reflexivity|]. change (String c (s +:+ EmptyString) = String c s). now rewrite IH. Qed.

Lemma app_cons (c : ascii) (s t : string) : String c s +:+ t = String c (s +:+ t).
Proof. reflexivity. Qed.

Lemma app_nil_l (s : string) : EmptyString +:+ s = s.
Proof. reflexivity. Qed.

Lemma app_assoc (s t u : string) : (s +:+ t) +:+ u = s +:+ (t +:+ u).
Proof. induction s as [|c s IH]; [reflexivity|]. rewrite !app_cons. now rewrite IH. Qed.

Lemma len_app (s t : string) : len (s +:+ t) = (len s + len t)%nat.
Proof. unfold len. induction s as [|c s IH]; [reflexivity|]. rewrite app_cons. simpl. now rewrite IH. Qed.

Lemma sliceFrom_app (s t : string) : sliceFrom (len s) (s +:+ t) = t.
Proof. induction s as [|c s IH]; [now destruct t|]. rewrite app_cons. exact IH. Qed.

Lemma sliceTo_app (s t : string) : sliceTo (len s) (s +:+ t) = s.
Proof. unfold len. induction s as [|c s IH]; [now destruct t|]. rewrite app_cons. simpl. now rewrite IH. Qed.

Lemma slice_split (n : nat) (s : string) : sliceTo n s +:+ sliceFrom n s = s.
Proof.
  revert s. induction n as [|n IH]; intros s; [reflexivity|].
  destruct s as [|c s]; [reflexivity|]. cbn. rewrite app_cons. now rewrite IH.
Qed.

Lemma HasSuffix_app (s t : string) : HasSuffix (s +:+ t) t = true.
Proof.
  unfold HasSuffix. rewrite len_app.
  replace (len s + len t - len t)%nat with (len s) by lia.
  rewrite sliceFrom_app, String.eqb_refl.
  rewrite andb_true_r. apply Nat.leb_le. lia.
Qed.

Lemma HasSuffix_inv (s t : string) : HasSuffix s t = true -> exists m, s = m +:+ t.
Proof.
  unfold HasSuffix. intros H. apply andb_true_iff in H as [_ H].
  apply String.eqb_eq in H. exists (sliceTo (len s - len t) s).
  rewrite <- H at 2. now rewrite slice_split.
Qed.

Lemma TrimSuffix_app (s t : string) : TrimSuffix (s +:+ t) t = s.
Proof.
  unfold TrimSuffix. rewrite HasSuffix_app, len_app.
  replace (len s + len t - len t)%nat with (len s) by lia. apply sliceTo_app.
Qed.

Lemma lastByte_app_cons (s t : string) (c : ascii) : lastByte (s +:+ String c t) = lastByte (String c t).
Proof.
  induction s as [|d s IH]; [reflexivity|]. rewrite app_cons.
  change (lastByte (String d (s +:+ String c t))) with
    (match s +:+ String c t with EmptyString => Some d | String _ _ => lastByte (s +:+ String c t) end).
  destruct (s +:+ String c t) eqn:E; [now destruct s|]. now rewrite <- IH.
Qed.

Lemma lastByte_snoc (s : string) (c : ascii) : lastByte (s +:+ String c EmptyString) = Some c.
Proof. now rewrite lastByte_app_cons. Qed.

Lemma HasSuffix_byte (s : string) (c : ascii) :
  HasSuffix s (String c EmptyString) = true <-> lastByte s = Some c.
Proof.
  split.
  - intros [m ->]%HasSuffix_inv. apply lastByte_snoc.
  - revert c. induction s as [|d s IH]; intros c H; [discriminate|].
    destruct s as [|e s]; [injection H as ->; apply (HasSuffix_app EmptyString)|].
    change (lastByte (String e s) = Some c) in H. apply IH in H.
    apply HasSuffix_inv in H as [m Hm]. rewrite Hm.
    change (String d (m +:+ String c EmptyString)) with (String d m +:+ String c EmptyString).
    apply HasSuffix_app.
Qed.

Ltac text_norm := repeat (rewrite app_assoc || rewrite app_nil_r || rewrite app_nil_l).

Lemma concatAll_app (xs ys : list string) :
  concatAll (xs ++ ys) = concatAll xs +:+ concatAll ys.
Proof. induction xs as [|x xs IH]; [reflexivity|]. simpl. now rewrite IH, app_assoc. Qed.

Lemma Join_cons (x : string) (xs : list string) (sep : string) :
  Join (x :: xs) sep = x +:+ concatAll (List.map (fun y => sep +:+ y) xs).
Proof.
  revert x. induction xs as [|y ys IH]; intros x; [symmetry; apply app_nil_r|].
  change (Join (x :: y :: ys) sep) with (x +:+ sep +:+ Join (y :: ys) sep).
  rewrite IH. simpl. now rewrite app_assoc.
Qed.

(** ** The loops of [buildDumpTableDDL] *)

Lemma writeColumn_line (i : nat) (col : column) (w : Builder) :
  writeColumn i col w = w +:+ columnSeparator i +:+ nl +:+ indent +:+ columnLine col.
Proof.
  unfold writeColumn, columnLine, columnHead, columnTail, defaultClause, lengthClause,
    notNullClause, identityClause, checkClause, Fprint.
  destruct i as [|i]; cbn [Nat.ltb Nat.leb]; simpl columnSeparator;
    destruct (0 <? Length col); destruct (Nullable col); simpl negb;
    destruct (String.eqb (Default col) EmptyString); destruct (IsAutoIncrement col);
    simpl negb; simpl andb;
    destruct (String.eqb (IdentityGeneration col) EmptyString); simpl negb;
    destruct (Check_ col); text_norm; reflexivity.
Qed.

Lemma forRange_columns_succ (i : nat) (columns : list column) (w : Builder) :
  forRange writeColumn (S i) columns w =
    w +:+ concatAll (List.map (fun col => "," +:+ (nl +:+ indent +:+ columnLine col)) columns).
Proof.
  revert i w. induction columns as [|col columns IH]; intros i w; simpl.
  - now rewrite app_nil_r.
  - rewrite IH, writeColumn_line. simpl columnSeparator. text_norm. reflexivity.
Qed.

Lemma forRange_columns (columns : list column) (w : Builder) :
  forRange writeColumn 0 columns w =
    w +:+ Join (List.map (fun col => nl +:+ indent +:+ columnLine col) columns) ",".
Proof.
  destruct columns as [|col columns]; simpl forRange.
  - simpl. now rewrite app_nil_r.
  - rewrite forRange_columns_succ, writeColumn_line. simpl List.map. rewrite Join_cons.
    rewrite List.map_map. simpl columnSeparator. text_norm. reflexivity.
Qed.

Lemma forRange_checks (i : nat) (checks : list (string * string)) (w : Builder) :
  forRange writeCheckConstraint i checks w = w +:+ concatAll (List.map constraintClause checks).
Proof.
  revert i w. induction checks as [|kv checks IH]; intros i w; simpl.
  - now rewrite app_nil_r.
  - rewrite IH. unfold writeCheckConstraint, constraintClause, Fprint. text_norm. reflexivity.
Qed.

Lemma forRange_statements (i : nat) (vs : list string) (w : Builder) :
  forRange writeStatement i vs w = w +:+ concatAll (List.map (fun v => v +:+ ";" +:+ nl) vs).
Proof.
  revert i w. induction vs as [|v vs IH]; intros i w; simpl.
  - now rewrite app_nil_r.
  - rewrite IH. unfold writeStatement, Fprint. text_norm. reflexivity.
Qed.

Lemma forRange_uniques (i : nat) (uniques : list (string * string)) (w : Builder) :
  forRange writeUniqueConstraint i uniques w =
    w +:+ concatAll (List.map (fun v => v +:+ ";" +:+ nl) (List.map snd uniques)).
Proof.
  revert i w. induction uniques as [|kv uniques IH]; intros i w; simpl.
  - now rewrite app_nil_r.
  - rewrite IH. unfold writeUniqueConstraint, Fprint. text_norm. reflexivity.
Qed.

(** The newline that ends a statement is the newline that starts the next
    line. *)
Lemma statement_lines_shift (vs : list string) :
  nl +:+ concatAll (List.map (fun v => v +:+ ";" +:+ nl) vs) =
    concatAll (List.map statementLine vs) +:+ nl.
Proof.
  induction vs as [|v vs IH]; [reflexivity|]. simpl. unfold statementLine at 1.
  text_norm. now rewrite IH.
Qed.

Lemma primaryKey_written (pkeyCols : list string) (w : Builder) :
  (if (0 <? length pkeyCols)%nat then
     Fprint (Fprint w ("," +:+ nl +:+ indent))
       ("PRIMARY KEY (" +:+ dq +:+ Join pkeyCols (dq +:+ ", " +:+ dq) +:+ dq +:+ ")")
   else w) = w +:+ primaryKeyClause pkeyCols.
Proof.
  destruct pkeyCols as [|k ks]; cbn [Nat.ltb Nat.leb length]; unfold primaryKeyClause, Fprint.
  - now rewrite app_nil_r.
  - text_norm. reflexivity.
Qed.

Lemma queryBuilderText_sections (checkOrder uniqueOrder : rangeOrder) (table : string)
    (columns : list column) (pkeyCols indexDefs foreignDefs policyDefs : list string)
    (checkConstraints uniqueConstraints : gmap string string) :
  queryBuilderText checkOrder uniqueOrder table columns pkeyCols indexDefs foreignDefs
    policyDefs checkConstraints uniqueConstraints =
  ddlText table columns pkeyCols (checkOrder checkConstraints) indexDefs foreignDefs
    policyDefs (uniqueOrder uniqueConstraints) +:+ nl.
Proof.
  unfold queryBuilderText, ddlText.
  rewrite forRange_uniques, !forRange_statements, forRange_checks.
  rewrite primaryKey_written, forRange_columns. unfold Fprint.
  rewrite !List.map_app, !concatAll_app.
  text_norm.
  rewrite <- !concatAll_app, <- !List.map_app.
  rewrite statement_lines_shift.
  rewrite !List.map_app, !concatAll_app. text_norm. reflexivity.
Qed.

Lemma lastByte_statements (p : string) (vs : list string) :
  lastByte (p +:+ ";" +:+ concatAll (List.map statementLine vs)) = Some ";"%char.
Proof.
  revert p. induction vs as [|v vs IH]; intros p; simpl.
  - rewrite app_nil_r. apply lastByte_snoc.
  - unfold statementLine at 1.
    replace (p +:+ ";" +:+ (nl +:+ v +:+ ";") +:+ concatAll (List.map statementLine vs))
      with ((p +:+ ";" +:+ nl +:+ v) +:+ ";" +:+ concatAll (List.map statementLine vs))
      by (text_norm; reflexivity).
    apply IH.
Qed.

Lemma lastByte_app_r (a b : string) (c : ascii) :
  lastByte b = Some c -> lastByte (a +:+ b) = Some c.
Proof. destruct b as [|d b]; [discriminate|]. now rewrite lastByte_app_cons. Qed.

Lemma ddlText_lastByte (table : string) (columns : list column) (pkeyCols : list string)
    (checks : list (string * string)) (indexDefs foreignDefs policyDefs : list string)
    (uniques : list (string * string)) :
  lastByte (ddlText table columns pkeyCols checks indexDefs foreignDefs policyDefs uniques)
    = Some ";"%char.
Proof.
  unfold ddlText. do 7 apply lastByte_app_r.
  apply (lastByte_statements ")").
Qed.

(** ** The text around one column, and around one statement *)

Lemma Join_middle {A} (f : A -> string) (before : list A) (x : A) (after : list A)
    (sep : string) :
  Join (List.map f (before ++ x :: after)) sep =
    concatAll (List.map (fun a => f a +:+ sep) before) +:+ f x
      +:+ concatAll (List.map (fun a => sep +:+ f a) after).
Proof.
  induction before as [|b before IH].
  - cbn [List.app List.map concatAll]. rewrite Join_cons, List.map_map. reflexivity.
  - cbn [List.app List.map concatAll].
    destruct (before ++ x :: after) as [|y ys] eqn:E;
      [symmetry in E; now apply List.app_cons_not_nil in E|].
    change (Join (f b :: List.map f (y :: ys)) sep)
      with (f b +:+ sep +:+ Join (List.map f (y :: ys)) sep).
    rewrite IH. now text_norm.
Qed.

Lemma buildDumpTableDDL_ddlText (checkOrder uniqueOrder : rangeOrder) (table : string)
    (columns : list column) (pkeyCols indexDefs foreignDefs policyDefs : list string)
    (checkConstraints uniqueConstraints : gmap string string) :
  buildDumpTableDDL checkOrder uniqueOrder table columns pkeyCols indexDefs foreignDefs
    policyDefs checkConstraints uniqueConstraints =
  ddlText table columns pkeyCols (checkOrder checkConstraints) indexDefs foreignDefs
    policyDefs (uniqueOrder uniqueConstraints).
Proof. unfold buildDumpTableDDL. rewrite queryBuilderText_sections. apply TrimSuffix_app. Qed.

(** The text [buildDumpTableDDL] returns, around the line of one column. *)
Lemma buildDumpTableDDL_column (checkOrder uniqueOrder : rangeOrder) (table : string)
    (before : list column) (col : column) (after : list column)
    (pkeyCols indexDefs foreignDefs policyDefs : list string)
    (checkConstraints uniqueConstraints : gmap string string) :
  buildDumpTableDDL checkOrder uniqueOrder table (before ++ col :: after) pkeyCols indexDefs
    foreignDefs policyDefs checkConstraints uniqueConstraints =
  tableHead table before +:+ nl +:+ indent +:+ columnLine col
    +:+ tableRest after pkeyCols (checkOrder checkConstraints) indexDefs foreignDefs
          policyDefs (uniqueOrder uniqueConstraints).
Proof.
  rewrite buildDumpTableDDL_ddlText. unfold ddlText, tableHead, tableRest.
  rewrite (Join_middle (fun col => nl +:+ indent +:+ columnLine col)). now text_norm.
Qed.

(** The text [buildDumpTableDDL] returns, around one policy definition. *)
Lemma buildDumpTableDDL_policy (checkOrder uniqueOrder : rangeOrder) (table : string)
    (columns : list column) (pkeyCols indexDefs foreignDefs : list string)
    (defsBefore : list string) (def : string) (defsAfter : list string)
    (checkConstraints uniqueConstraints : gmap string string) :
  buildDumpTableDDL checkOrder uniqueOrder table columns pkeyCols indexDefs foreignDefs
    (defsBefore ++ def :: defsAfter) checkConstraints uniqueConstraints =
  tableBody table columns pkeyCols (checkOrder checkConstraints)
    +:+ concatAll (List.map statementLine (indexDefs ++ foreignDefs ++ defsBefore))
    +:+ nl +:+ def +:+ ";"
    +:+ concatAll (List.map statementLine
                     (defsAfter ++ List.map snd (uniqueOrder uniqueConstraints))).
Proof.
  rewrite buildDumpTableDDL_ddlText. unfold ddlText, tableBody.
  rewrite !List.map_app, !concatAll_app. cbn [List.map concatAll].
  text_norm. unfold statementLine at 4. now text_norm.
Qed.

(** ** The canonical type *)

(** C4. [GetDataType] maps smallint, integer and bigint with the
    auto-increment flag set to smallserial, serial and bigserial; it maps
    timestamp without time zone to timestamp and time without time zone to
    time whatever the flag; it returns every other raw type, and the three
    integer types when the flag is not set, unchanged. *)
Theorem GetDataType_canonical (c : column) :
  (IsAutoIncrement c = true ->
     (dataType c = "smallint" -> GetDataType c = "smallserial") /\
     (dataType c = "integer" -> GetDataType c = "serial") /\
     (dataType c = "bigint" -> GetDataType c = "bigserial")) /\
  (dataType c = "timestamp without time zone" -> GetDataType c = "timestamp") /\
  (dataType c = "time without time zone" -> GetDataType c = "time") /\
  (dataType c <> "timestamp without time zone" ->
   dataType c <> "time without time zone" ->
   IsAutoIncrement c = false \/
     (dataType c <> "smallint" /\ dataType c <> "integer" /\ dataType c <> "bigint") ->
   GetDataType c = dataType c).
Proof.
  unfold GetDataType. repeat split.
  - intros ->. now rewrite H.
  - intros ->. now rewrite H.
  - intros ->. now rewrite H.
  - now intros ->.
  - now intros ->.
  - intros Hts Htime Hother.
    apply String.eqb_neq in Hts, Htime. rewrite Hts, Htime.
    destruct Hother as [-> | (Hs & Hi & Hb)].
    + now repeat destruct (String.eqb _ _).
    + apply String.eqb_neq in Hs, Hi, Hb. now rewrite Hs, Hi, Hb.
Qed.

Lemma GetDataType_canonical_witness :
  GetDataType idColumn = "serial" /\
  GetDataType createdColumn = "timestamp" /\
  GetDataType emailColumn = "character varying".
Proof.
  split; [|split].
  - apply (GetDataType_canonical idColumn); reflexivity.
  - apply (GetDataType_canonical createdColumn); reflexivity.
  - apply (GetDataType_canonical emailColumn); [discriminate | discriminate | now left].
Defined.

(** ** The DEFAULT clause of a column *)

Lemma HasPrefix_begins (s prefix : string) :
  HasPrefix s prefix = true <-> exists rest, s = prefix +:+ rest.
Proof.
  revert s. induction prefix as [|p prefix IH]; intros s; simpl.
  - split; [intros _; now exists s | reflexivity].
  - destruct s as [|c s].
    + split; [discriminate | intros [rest H]; discriminate].
    + destruct (Ascii.eqb_spec c p) as [->|Hne].
      * rewrite IH. split; intros [rest H]; exists rest.
        -- now rewrite H.
        -- rewrite app_cons in H. now injection H.
      * split; [discriminate|]. intros [rest H]. rewrite app_cons in H.
        injection H as H _. contradiction.
Qed.

(** What [getColumns] puts into a column for the default expression of
    its catalog row. *)
Lemma getColumnsRow_default (row : Row) (cols : list column) (col : column) :
  getColumnsRow row cols = (cols ++ [col], None) ->
  Default col = match ptrAt row 1 with Some d => d | None => EmptyString end /\
  IsAutoIncrement col =
    match ptrAt row 1 with Some d => HasPrefix d "nextval(" | None => false end.
Proof.
  unfold getColumnsRow. destruct (Scan _ row); [discriminate|].
  destruct (match ptrAt row 3 with Some s => Atoi s | None => (0, None) end) as [maxLen [err|]];
    [discriminate|].
  intros H. injection H as H. apply app_inj_tail in H as [_ <-]. now split.
Qed.

(** C2. In the text [buildDumpTableDDL] returns, the line of a column of
    its list holds, between the NOT NULL clause and the identity clause,
    nothing when the column is auto-increment, and DEFAULT and the default
    expression verbatim when the column is not auto-increment and the
    expression is not empty.  A column read from the catalog is
    auto-increment exactly when its default expression is there and begins
    with the text nextval and an opening parenthesis, and its default
    expression is the catalog's. *)
Theorem default_clause_rendered (checkOrder uniqueOrder : rangeOrder) (table : string)
    (before : list column) (col : column) (after : list column)
    (pkeyCols indexDefs foreignDefs policyDefs : list string)
    (checkConstraints uniqueConstraints : gmap string string) :
  let out := buildDumpTableDDL checkOrder uniqueOrder table (before ++ col :: after) pkeyCols
               indexDefs foreignDefs policyDefs checkConstraints uniqueConstraints in
  let rest := tableRest after pkeyCols (checkOrder checkConstraints) indexDefs foreignDefs
                policyDefs (uniqueOrder uniqueConstraints) in
  (IsAutoIncrement col = true ->
     out = tableHead table before +:+ nl +:+ indent
             +:+ columnHead col +:+ columnTail col +:+ rest) /\
  (IsAutoIncrement col = false -> Default col <> EmptyString ->
     out = tableHead table before +:+ nl +:+ indent
             +:+ columnHead col +:+ " DEFAULT " +:+ Default col +:+ columnTail col +:+ rest) /\
  (forall (row : Row) (cols : list column),
     getColumnsRow row cols = (cols ++ [col], None) ->
     (IsAutoIncrement col = true <->
        exists rest, ptrAt row 1 = Some ("nextval(" +:+ rest)) /\
     (forall d, ptrAt row 1 = Some d -> Default col = d)).
Proof.
  cbv zeta. rewrite buildDumpTableDDL_column. unfold columnLine, defaultClause.
  split; [|split].
  - intros Hauto. rewrite Hauto. now text_norm.
  - intros Hauto Hdef. rewrite Hauto. apply String.eqb_neq in Hdef. rewrite Hdef.
    now text_norm.
  - intros row cols [Hdef Hauto]%getColumnsRow_default. split.
    + rewrite Hauto. destruct (ptrAt row 1) as [d|].
      * rewrite HasPrefix_begins. split; intros [rest H]; exists rest; congruence.
      * split; [discriminate | intros [rest H]; discriminate].
    + intros d Hd. now rewrite Hdef, Hd.
Qed.

(** ** The sections of a table's DDL *)

Lemma validRange_forward : validRange forwardOrder.
Proof. intros m. reflexivity. Qed.

Lemma validRange_backward : validRange backwardOrder.
Proof. intros m. unfold backwardOrder. symmetry. apply Permutation_rev. Qed.

(** C3, as the code has it.  [buildDumpTableDDL] returns the sections in
    their order: the header with one indented line per column, separated by
    commas, in the order of the list; the PRIMARY KEY clause exactly when the
    list of key columns is not empty; one CONSTRAINT clause per check
    constraint of the map; the closing parenthesis and semicolon; then one
    statement ending in a semicolon per index, foreign-key and policy
    definition and per unique constraint of the map.  The text it has built
    ends with one newline more than the text it returns, which never ends
    with a newline.  The result depends on the arguments and on the order in
    which the runtime visits the two maps, and on nothing else. *)
Theorem buildDumpTableDDL_sections (checkOrder uniqueOrder : rangeOrder) (table : string)
    (columns : list column) (pkeyCols indexDefs foreignDefs policyDefs : list string)
    (checkConstraints uniqueConstraints : gmap string string) :
  validRange checkOrder -> validRange uniqueOrder ->
  let out := buildDumpTableDDL checkOrder uniqueOrder table columns pkeyCols indexDefs
               foreignDefs policyDefs checkConstraints uniqueConstraints in
  (exists checks uniques,
     Permutation checks (map_to_list checkConstraints) /\
     Permutation uniques (map_to_list uniqueConstraints) /\
     out = ddlText table columns pkeyCols checks indexDefs foreignDefs policyDefs uniques) /\
  (primaryKeyClause pkeyCols = EmptyString <-> pkeyCols = []) /\
  queryBuilderText checkOrder uniqueOrder table columns pkeyCols indexDefs foreignDefs
    policyDefs checkConstraints uniqueConstraints = out +:+ nl /\
  HasSuffix out nl = false /\
  (forall checkOrder' uniqueOrder' : rangeOrder,
     checkOrder' checkConstraints = checkOrder checkConstraints ->
     uniqueOrder' uniqueConstraints = uniqueOrder uniqueConstraints ->
     buildDumpTableDDL checkOrder' uniqueOrder' table columns pkeyCols indexDefs foreignDefs
       policyDefs checkConstraints uniqueConstraints = out).
Proof.
  intros Hc Hu out.
  assert (Hout : out = ddlText table columns pkeyCols (checkOrder checkConstraints) indexDefs
                        foreignDefs policyDefs (uniqueOrder uniqueConstraints)).
  { unfold out, buildDumpTableDDL. rewrite queryBuilderText_sections. apply TrimSuffix_app. }
  repeat split.
  - exists (checkOrder checkConstraints), (uniqueOrder uniqueConstraints).
    split; [apply Hc | split; [apply Hu | exact Hout]].
  - destruct pkeyCols; [reflexivity | discriminate].
  - now intros ->.
  - rewrite Hout. apply queryBuilderText_sections.
  - destruct (HasSuffix out nl) eqn:E; [|reflexivity].
    apply HasSuffix_byte in E. rewrite Hout, ddlText_lastByte in E. discriminate.
  - intros checkOrder' uniqueOrder' Hc' Hu'. unfold out, buildDumpTableDDL.
    rewrite !queryBuilderText_sections. now rewrite Hc', Hu'.
Qed.

Lemma default_clause_rendered_witness :
  buildDumpTableDDL forwardOrder forwardOrder "public.users" ([] ++ idColumn :: [emailColumn])
    ["id"] [] [] [] ∅ ∅ =
    tableHead "public.users" [] +:+ nl +:+ indent
      +:+ columnHead idColumn +:+ columnTail idColumn
      +:+ tableRest [emailColumn] ["id"] [] [] [] [] [] /\
  buildDumpTableDDL forwardOrder forwardOrder "public.users" ([idColumn] ++ emailColumn :: [])
    ["id"] [] [] [] ∅ ∅ =
    tableHead "public.users" [idColumn] +:+ nl +:+ indent
      +:+ columnHead emailColumn +:+ " DEFAULT " +:+ Default emailColumn
      +:+ columnTail emailColumn +:+ tableRest [] ["id"] [] [] [] [] [] /\
  (IsAutoIncrement idColumn = true <->
     exists rest, ptrAt idRow 1 = Some ("nextval(" +:+ rest)).
Proof.
  pose proof (default_clause_rendered forwardOrder forwardOrder "public.users" []
                idColumn [emailColumn] ["id"] [] [] [] ∅ ∅) as Hid.
  pose proof (default_clause_rendered forwardOrder forwardOrder "public.users" [idColumn]
                emailColumn [] ["id"] [] [] [] ∅ ∅) as Hemail.
  cbv zeta in Hid, Hemail. destruct Hid as (Hid & _ & Hrow). destruct Hemail as (_ & Hemail & _).
  split; [apply Hid; reflexivity|].
  split; [apply Hemail; [reflexivity | discriminate]|].
  apply (Hrow idRow []). reflexivity.
Defined.

Lemma buildDumpTableDDL_sections_witness :
  HasSuffix
    (buildDumpTableDDL forwardOrder forwardOrder "public.users" [idColumn; emailColumn] ["id"]
       ["CREATE INDEX users_email_idx ON public.users USING btree (email)"] [] []
       twoChecks twoUniques) nl = false.
Proof.
  pose proof (buildDumpTableDDL_sections forwardOrder forwardOrder "public.users"
                [idColumn; emailColumn] ["id"]
                ["CREATE INDEX users_email_idx ON public.users USING btree (email)"] [] []
                twoChecks twoUniques validRange_forward validRange_forward) as H.
  cbv zeta in H. destruct H as (_ & _ & _ & H & _). exact H.
Defined.

(** C3, as stated, fails in its last sentence: with two unique constraints
    the same arguments give two texts, one for each order of the loop over
    the map. *)
Lemma buildDumpTableDDL_not_only_arguments :
  ~ exists out : string,
      forall checkOrder uniqueOrder : rangeOrder,
        validRange checkOrder -> validRange uniqueOrder ->
        buildDumpTableDDL checkOrder uniqueOrder "public.t" [idColumn] ["id"] [] [] []
          ∅ twoUniques = out.
Proof.
  intros [out H].
  pose proof (H forwardOrder forwardOrder validRange_forward validRange_forward) as H1.
  pose proof (H forwardOrder backwardOrder validRange_forward validRange_backward) as H2.
  rewrite <- H2 in H1. vm_compute in H1. discriminate H1.
Qed.

(** ** Determinism *)

Lemma range_at_most_one (order : rangeOrder) (m : gmap string string) :
  validRange order -> (size m <= 1)%nat -> order m = map_to_list m.
Proof.
  intros Hv Hsize. specialize (Hv m). rewrite <- length_map_to_list in Hsize.
  destruct (map_to_list m) as [|kv [|kv' l]] eqn:E.
  - now apply Permutation_nil_r in Hv.
  - symmetry in Hv. now apply Permutation_length_1_inv in Hv.
  - simpl in Hsize. lia.
Qed.

(** C1, as the code has it.  Two invocations of [buildDumpTableDDL] on the
    same arguments return the sections of the same text, where only the order
    of the CONSTRAINT clauses and the order of the statements of the unique
    constraints may differ: each is the order in which the runtime visits the
    map in that invocation.  The two texts are the same whenever the runtime
    visits each of the two maps in the same order in both invocations, which
    it must when the map holds at most one entry. *)
Theorem buildDumpTableDDL_deterministic
    (checkOrder1 uniqueOrder1 checkOrder2 uniqueOrder2 : rangeOrder) (table : string)
    (columns : list column) (pkeyCols indexDefs foreignDefs policyDefs : list string)
    (checkConstraints uniqueConstraints : gmap string string) :
  validRange checkOrder1 -> validRange uniqueOrder1 ->
  validRange checkOrder2 -> validRange uniqueOrder2 ->
  let out1 := buildDumpTableDDL checkOrder1 uniqueOrder1 table columns pkeyCols indexDefs
                foreignDefs policyDefs checkConstraints uniqueConstraints in
  let out2 := buildDumpTableDDL checkOrder2 uniqueOrder2 table columns pkeyCols indexDefs
                foreignDefs policyDefs checkConstraints uniqueConstraints in
  (exists checks1 checks2 uniques1 uniques2,
     Permutation checks1 checks2 /\ Permutation uniques1 uniques2 /\
     out1 = ddlText table columns pkeyCols checks1 indexDefs foreignDefs policyDefs uniques1 /\
     out2 = ddlText table columns pkeyCols checks2 indexDefs foreignDefs policyDefs uniques2) /\
  (checkOrder1 checkConstraints = checkOrder2 checkConstraints \/
     (size checkConstraints <= 1)%nat ->
   uniqueOrder1 uniqueConstraints = uniqueOrder2 uniqueConstraints \/
     (size uniqueConstraints <= 1)%nat ->
   out1 = out2).
Proof.
  intros Hc1 Hu1 Hc2 Hu2 out1 out2.
  assert (H1 : out1 = ddlText table columns pkeyCols (checkOrder1 checkConstraints) indexDefs
                        foreignDefs policyDefs (uniqueOrder1 uniqueConstraints)).
  { unfold out1, buildDumpTableDDL. rewrite queryBuilderText_sections. apply TrimSuffix_app. }
  assert (H2 : out2 = ddlText table columns pkeyCols (checkOrder2 checkConstraints) indexDefs
                        foreignDefs policyDefs (uniqueOrder2 uniqueConstraints)).
  { unfold out2, buildDumpTableDDL. rewrite queryBuilderText_sections. apply TrimSuffix_app. }
  split.
  - exists (checkOrder1 checkConstraints), (checkOrder2 checkConstraints),
      (uniqueOrder1 uniqueConstraints), (uniqueOrder2 uniqueConstraints).
    split; [|split; [|split; [exact H1 | exact H2]]].
    + rewrite (Hc1 checkConstraints). symmetry. apply Hc2.
    + rewrite (Hu1 uniqueConstraints). symmetry. apply Hu2.
  - intros Hc Hu.
    assert (Hc' : checkOrder1 checkConstraints = checkOrder2 checkConstraints).
    { destruct Hc as [Hc|Hc]; [exact Hc|].
      rewrite (range_at_most_one checkOrder1), (range_at_most_one checkOrder2); auto. }
    assert (Hu' : uniqueOrder1 uniqueConstraints = uniqueOrder2 uniqueConstraints).
    { destruct Hu as [Hu|Hu]; [exact Hu|].
      rewrite (range_at_most_one uniqueOrder1), (range_at_most_one uniqueOrder2); auto. }
    now rewrite H1, H2, Hc', Hu'.
Qed.

Lemma buildDumpTableDDL_deterministic_witness :
  buildDumpTableDDL forwardOrder forwardOrder "public.users" [idColumn; emailColumn] ["id"]
    [] [] [] oneCheck twoUniques =
  buildDumpTableDDL backwardOrder forwardOrder "public.users" [idColumn; emailColumn] ["id"]
    [] [] [] oneCheck twoUniques.
Proof.
  pose proof (buildDumpTableDDL_deterministic forwardOrder forwardOrder backwardOrder
                forwardOrder "public.users" [idColumn; emailColumn] ["id"] [] [] []
                oneCheck twoUniques validRange_forward validRange_forward
                validRange_backward validRange_forward) as H.
  cbv zeta in H. destruct H as [_ H].
  apply H; [right; vm_compute; lia | left; reflexivity].
Defined.

(** C1, as stated, fails: with two check constraints the same arguments
    give two texts that differ in the order of the CONSTRAINT clauses. *)
Lemma buildDumpTableDDL_order_dependent :
  validRange forwardOrder /\ validRange backwardOrder /\
  buildDumpTableDDL forwardOrder forwardOrder "public.t" [idColumn] [] [] [] []
    twoChecks ∅ <>
  buildDumpTableDDL backwardOrder forwardOrder "public.t" [idColumn] [] [] [] []
    twoChecks ∅.
Proof.
  split; [apply validRange_forward | split; [apply validRange_backward|]].
  intros H. vm_compute in H. discriminate H.
Qed.

(** ** [TrimSpace] runs to the end *)

Lemma len_sliceFrom (n : nat) (s : string) : len (sliceFrom n s) = (len s - n)%nat.
Proof.
  unfold len. revert s. induction n as [|n IH]; intros s; simpl; [lia|].
  destruct s as [|c s]; [reflexivity|]. simpl. apply IH.
Qed.

Lemma len_sliceTo (n : nat) (s : string) : (n <= len s)%nat -> len (sliceTo n s) = n.
Proof.
  unfold len. revert s. induction n as [|n IH]; intros s H; simpl; [reflexivity|].
  destruct s as [|c s]; simpl in *; [lia|]. rewrite IH; lia.
Qed.

Lemma HasSuffix_len (s t : string) : HasSuffix s t = true -> (len t <= len s)%nat.
Proof. intros [m ->]%HasSuffix_inv. rewrite len_app. lia. Qed.

Lemma HasPrefix_len (s t : string) : HasPrefix s t = true -> (len t <= len s)%nat.
Proof. intros [rest ->]%HasPrefix_begins. rewrite len_app. lia. Qed.

Lemma spaceRunes_nonempty : Forall (fun r => (0 < len r)%nat) spaceRunes.
Proof. unfold spaceRunes. repeat (constructor; [vm_compute; lia|]). constructor. Qed.

Lemma cutSpacePrefix_shorter (runes : list string) (s s' : string) :
  Forall (fun r => (0 < len r)%nat) runes ->
  cutSpacePrefix runes s = Some s' -> (len s' < len s)%nat.
Proof.
  induction 1 as [|r runes Hr _ IH]; simpl; [discriminate|].
  destruct (HasPrefix s r) eqn:E; [|exact IH].
  intros [= <-]. apply HasPrefix_len in E. rewrite len_sliceFrom. lia.
Qed.

Lemma cutSpaceSuffix_shorter (runes : list string) (s s' : string) :
  Forall (fun r => (0 < len r)%nat) runes ->
  cutSpaceSuffix runes s = Some s' -> (len s' < len s)%nat.
Proof.
  induction 1 as [|r runes Hr _ IH]; simpl; [discriminate|].
  destruct (HasSuffix s r) eqn:E; [|exact IH].
  intros [= <-]. apply HasSuffix_len in E. rewrite len_sliceTo; lia.
Qed.

Lemma trimSpaceLeft_done (fuel : nat) (s : string) :
  (len s <= fuel)%nat -> cutSpacePrefix spaceRunes (trimSpaceLeft fuel s) = None.
Proof.
  revert s. induction fuel as [|fuel IH]; intros s H; cbn [trimSpaceLeft].
  - destruct s; [reflexivity | unfold len in H; simpl in H; lia].
  - destruct (cutSpacePrefix spaceRunes s) as [s'|] eqn:E; [|exact E].
    apply IH. apply cutSpacePrefix_shorter in E; [lia | apply spaceRunes_nonempty].
Qed.

Lemma trimSpaceRight_done (fuel : nat) (s : string) :
  (len s <= fuel)%nat -> cutSpaceSuffix spaceRunes (trimSpaceRight fuel s) = None.
Proof.
  revert s. induction fuel as [|fuel IH]; intros s H; cbn [trimSpaceRight].
  - destruct s; [reflexivity | unfold len in H; simpl in H; lia].
  - destruct (cutSpaceSuffix spaceRunes s) as [s'|] eqn:E; [|exact E].
    apply IH. apply cutSpaceSuffix_shorter in E; [lia | apply spaceRunes_nonempty].
Qed.

(** The text [TrimSpace] returns ends with no space rune: the rounds it is
    given are enough. *)
Lemma TrimSpace_done (s : string) : cutSpaceSuffix spaceRunes (TrimSpace s) = None.
Proof. unfold TrimSpace. now apply trimSpaceRight_done. Qed.

(** ** Views *)

Lemma containsByte_app (c : ascii) (s t : string) :
  containsByte c (s +:+ t) = containsByte c s || containsByte c t.
Proof.
  induction s as [|d s IH]; [reflexivity|]. rewrite app_cons. simpl.
  now rewrite IH, orb_assoc.
Qed.

Lemma containsByte_removeByte (c : ascii) (s : string) : containsByte c (removeByte c s) = false.
Proof.
  induction s as [|d s IH]; [reflexivity|]. simpl.
  destruct (Ascii.eqb d c) eqn:E; [exact IH|]. simpl. now rewrite E.
Qed.

Lemma containsByte_sliceTo (c : ascii) (n : nat) (s : string) :
  containsByte c s = false -> containsByte c (sliceTo n s) = false.
Proof.
  intros H. rewrite <- (slice_split n s), containsByte_app in H.
  now apply orb_false_iff in H as [H _].
Qed.

Lemma containsByte_TrimSuffix (c : ascii) (s t : string) :
  containsByte c s = false -> containsByte c (TrimSuffix s t) = false.
Proof.
  intros H. unfold TrimSuffix. destruct (HasSuffix s t); [|exact H].
  now apply containsByte_sliceTo.
Qed.

Lemma containsByte_collapseRuns (c d : ascii) (s : string) :
  containsByte c s = false -> containsByte c (collapseRuns d s) = false.
Proof.
  induction s as [|a s IH]; [reflexivity|]. cbn [collapseRuns containsByte].
  intros [Ha Hs]%orb_false_iff.
  destruct (Ascii.eqb a d && HasPrefix s (String d EmptyString)); [now apply IH|].
  cbn [containsByte]. now rewrite Ha, IH.
Qed.

(** The runs [regexp] replaces are the runs [collapseRuns] collapses. *)
Lemma replaceRuns_collapse (c : ascii) (s : string) :
  replaceRuns c (String c EmptyString) false s = collapseRuns c s /\
  String c (replaceRuns c (String c EmptyString) true s) = collapseRuns c (String c s).
Proof.
  induction s as [|d s [IH1 IH2]].
  - split; [reflexivity|]. simpl. rewrite Ascii.eqb_refl. reflexivity.
  - destruct (Ascii.eqb_spec d c) as [->|Hne].
    + assert (E : replaceRuns c (String c EmptyString) false (String c s) = collapseRuns c (String c s)).
      { simpl replaceRuns. rewrite Ascii.eqb_refl. rewrite app_cons, app_nil_l. exact IH2. }
      split; [exact E|].
      simpl replaceRuns. rewrite Ascii.eqb_refl. rewrite IH2.
      symmetry. change (collapseRuns c (String c (String c s))) with
        (if Ascii.eqb c c && HasPrefix (String c s) (String c EmptyString)
         then collapseRuns c (String c s) else String c (collapseRuns c (String c s))).
      simpl HasPrefix. now rewrite Ascii.eqb_refl.
    + apply Ascii.eqb_neq in Hne.
      assert (E : replaceRuns c (String c EmptyString) false (String d s) = collapseRuns c (String d s)).
      { simpl. rewrite Hne. simpl. now rewrite IH1. }
      split; [exact E|].
      change (collapseRuns c (String c (String d s))) with
        (if Ascii.eqb c c && HasPrefix (String d s) (String c EmptyString)
         then collapseRuns c (String d s) else String c (collapseRuns c (String d s))).
      simpl HasPrefix. rewrite Hne, andb_false_r.
      f_equal. simpl replaceRuns. rewrite Hne. rewrite <- E. simpl. now rewrite Hne.
Qed.

Lemma HasPrefix_byte_cons (a c : ascii) (s : string) :
  HasPrefix (String a s) (String c EmptyString) = Ascii.eqb a c.
Proof. simpl. now destruct (Ascii.eqb a c). Qed.

Lemma collapseRuns_first (c : ascii) (s : string) :
  HasPrefix (collapseRuns c s) (String c EmptyString) = HasPrefix s (String c EmptyString).
Proof.
  induction s as [|a s IH]; [reflexivity|]. cbn [collapseRuns].
  rewrite (HasPrefix_byte_cons a c s).
  destruct (Ascii.eqb a c) eqn:Ea; cbn [andb].
  - destruct (HasPrefix s (String c EmptyString)) eqn:Es.
    + exact IH.
    + now rewrite HasPrefix_byte_cons.
  - now rewrite HasPrefix_byte_cons.
Qed.

Lemma hasDouble_collapseRuns (c : ascii) (s : string) : hasDouble c (collapseRuns c s) = false.
Proof.
  induction s as [|a s IH]; [reflexivity|]. cbn [collapseRuns].
  destruct (Ascii.eqb a c && HasPrefix s (String c EmptyString)) eqn:E; [exact IH|].
  cbn [hasDouble]. rewrite collapseRuns_first, E, IH. reflexivity.
Qed.

Lemma collapseRuns_empty (c : ascii) (s : string) :
  collapseRuns c s = EmptyString -> s = EmptyString.
Proof.
  induction s as [|a s IH]; [reflexivity|]. cbn [collapseRuns].
  destruct (Ascii.eqb a c && HasPrefix s (String c EmptyString)) eqn:E; [|discriminate].
  intros H. apply IH in H. subst s. rewrite andb_false_r in E. discriminate.
Qed.

Lemma lastByte_cons (a : ascii) (s : string) :
  s <> EmptyString -> lastByte (String a s) = lastByte s.
Proof. destruct s; [contradiction | reflexivity]. Qed.

Lemma lastByte_collapseRuns (c : ascii) (s : string) :
  lastByte (collapseRuns c s) = lastByte s.
Proof.
  induction s as [|a s IH]; [reflexivity|]. cbn [collapseRuns].
  destruct (Ascii.eqb a c && HasPrefix s (String c EmptyString)) eqn:E.
  - rewrite IH. symmetry. apply lastByte_cons. intros ->. rewrite andb_false_r in E. discriminate.
  - destruct s as [|b s]; [reflexivity|].
    rewrite (lastByte_cons a (String b s)) by discriminate. rewrite <- IH.
    apply lastByte_cons. intros H. apply collapseRuns_empty in H. discriminate.
Qed.

Lemma app_inv_tail (x y t : string) : x +:+ t = y +:+ t -> x = y.
Proof.
  intros H. assert (Hlen : len x = len y).
  { apply (f_equal len) in H. rewrite !len_app in H. lia. }
  rewrite <- (sliceTo_app x t), H, Hlen. apply sliceTo_app.
Qed.

Lemma ReplaceAllString_suffix (c : ascii) (s : string) :
  ReplaceAllString (AtEnd c) s EmptyString = TrimSuffix s (String c EmptyString).
Proof.
  unfold ReplaceAllString, TrimSuffix.
  destruct (HasSuffix s (String c EmptyString)); [|reflexivity]. apply app_nil_r.
Qed.

Lemma ReplaceAllString_prefix (c : ascii) (s : string) :
  ReplaceAllString (AtStart c) s EmptyString = TrimPrefix s (String c EmptyString).
Proof. reflexivity. Qed.

Lemma ReplaceAllString_run (c : ascii) (s : string) :
  ReplaceAllString (Run c) s (String c EmptyString) = collapseRuns c s.
Proof. apply replaceRuns_collapse. Qed.

Lemma viewsRow_statement (schema name definition : string) (ddls : list string) :
  viewsRow (viewCells (schema, name, definition)) ddls =
    (ddls ++ [viewStatement schema name definition], None).
Proof.
  unfold viewsRow, viewCells, viewStatement, viewBody, viewOneLine, suffixSemicolon, spaces.
  cbn [Scan length Nat.eqb convertAssign stringAt ptrAt lookup list_lookup fst snd].
  rewrite ReplaceAllString_suffix.
  rewrite (ReplaceAllString_run " " (TrimSuffix (removeByte LF (TrimSpace definition)) ";")).
  now text_norm.
Qed.

(** A loop over rows whose body appends one element per row and returns no
    error appends them all. *)
Lemma forRows_appends {A} (body : Row -> list A -> Ret (list A)) (f : Row -> A)
    (rows : list Row) (acc : list A) :
  (forall row acc', In row rows -> body row acc' = (acc' ++ [f row], None)) ->
  forRows body rows acc = (acc ++ List.map f rows, None).
Proof.
  revert acc. induction rows as [|row rows IH]; intros acc H; simpl.
  - now rewrite List.app_nil_r.
  - rewrite H by now left. rewrite IH by (intros; apply H; now right).
    now rewrite <- List.app_assoc.
Qed.

Lemma viewBody_lastByte (definition : string) :
  lastByte (viewBody definition) = Some ";"%char ->
  HasSuffix (viewOneLine definition) ";;" = true.
Proof.
  unfold viewBody. rewrite lastByte_collapseRuns. intros H.
  destruct (HasSuffix (viewOneLine definition) ";") eqn:E.
  - apply HasSuffix_inv in E as [m Hm]. rewrite Hm, TrimSuffix_app in H.
    apply HasSuffix_byte, HasSuffix_inv in H as [m' ->]. rewrite Hm, app_assoc.
    apply HasSuffix_app.
  - unfold TrimSuffix in H. rewrite E in H. apply HasSuffix_byte in H. congruence.
Qed.

Lemma lastByte_after_AS (before body : string) (c : ascii) :
  lastByte (before +:+ " AS " +:+ body) = Some c -> c <> " "%char -> lastByte body = Some c.
Proof.
  destruct body as [|b body]; intros H Hc.
  - rewrite app_nil_r in H. rewrite lastByte_app_cons in H. simpl in H. congruence.
  - rewrite <- app_assoc, lastByte_app_cons in H. exact H.
Qed.

(** C7, as the code has it.  For every view row, [Views] emits CREATE VIEW,
    the schema, a dot, the name, AS, the body and a semicolon, where the body
    is the definition with the surrounding white space trimmed, every newline
    removed, one semicolon at its end stripped and every run of spaces
    collapsed to one space.  The body holds no newline and no two spaces in a
    row; the statement holds no newline when the schema and the name hold
    none; the statement ends with a semicolon, and with one only when the
    definition on one line does not end with two. *)
Theorem Views_statement (schema name definition : string) (ddls : list string) :
  let stmt := viewStatement schema name definition in
  viewsRow (viewCells (schema, name, definition)) ddls = (ddls ++ [stmt], None) /\
  containsByte LF (viewBody definition) = false /\
  hasDouble " " (viewBody definition) = false /\
  HasSuffix stmt ";" = true /\
  (HasSuffix (viewOneLine definition) ";;" = false -> HasSuffix stmt ";;" = false) /\
  (containsByte LF schema = false -> containsByte LF name = false ->
   containsByte LF stmt = false) /\
  (forall (db : DB) (log : list Call) (views : list (string * string * string)),
     db viewsQuery [] = Rows (List.map viewCells views) ->
     Views db log =
       ((List.map (fun v => viewStatement v.1.1 v.1.2 v.2) views, None),
        log ++ [(viewsQuery, [])])).
Proof.
  intros stmt.
  assert (Hbody : containsByte LF (viewBody definition) = false).
  { unfold viewBody, viewOneLine. apply containsByte_collapseRuns, containsByte_TrimSuffix,
      containsByte_removeByte. }
  split; [apply viewsRow_statement|]. split; [exact Hbody|].
  split; [apply hasDouble_collapseRuns|]. split; [|split; [|split]].
  - unfold stmt, viewStatement. rewrite <- !app_assoc. apply HasSuffix_app.
  - intros Hone. destruct (HasSuffix stmt ";;") eqn:E; [|reflexivity].
    apply HasSuffix_inv in E as [m Hm].
    assert (Hs : stmt = (("CREATE VIEW " +:+ schema +:+ "." +:+ name) +:+ " AS "
                           +:+ viewBody definition) +:+ ";")
      by (unfold stmt, viewStatement; now text_norm).
    rewrite Hs in Hm. change ";;" with (";" +:+ ";") in Hm. rewrite <- (app_assoc m) in Hm.
    apply app_inv_tail in Hm. apply (f_equal lastByte) in Hm. rewrite lastByte_snoc in Hm.
    apply lastByte_after_AS in Hm; [|discriminate].
    apply viewBody_lastByte in Hm. congruence.
  - intros Hs Hn. unfold stmt, viewStatement. rewrite !containsByte_app, Hs, Hn, Hbody.
    reflexivity.
  - intros db log views Hdb. unfold Views, bind, Query, lift. rewrite Hdb.
    rewrite (forRows_appends viewsRow (fun row => viewStatement (stringAt row 0)
               (stringAt row 1) (stringAt row 2))).
    + rewrite List.map_map. reflexivity.
    + intros row acc' Hin. apply List.in_map_iff in Hin as [[[s n] d] [<- _]].
      apply viewsRow_statement.
Qed.

Lemma Views_statement_witness :
  HasSuffix (viewStatement "public" "v" sampleViewDefinition) ";;" = false /\
  containsByte LF (viewStatement "public" "v" sampleViewDefinition) = false /\
  Views (sampleDB "130005") [] =
    ((["CREATE VIEW public.v AS SELECT a, b FROM t;"], None), [(viewsQuery, [])]).
Proof.
  pose proof (Views_statement "public" "v" sampleViewDefinition []) as H. cbv zeta in H.
  destruct H as (_ & _ & _ & _ & H1 & H2 & H3).
  split; [apply H1; reflexivity | split; [apply H2; reflexivity|]].
  apply (H3 (sampleDB "130005") [] [("public", "v", sampleViewDefinition)]). reflexivity.
Defined.

(** C7, as stated, fails.  A definition with a newline inside and a
    semicolon at its end, whose last line is a lone semicolon, is emitted
    with two semicolons at the end; and the statement of a view whose name
    holds a newline holds that newline. *)
Lemma Views_statement_two_semicolons_or_newline :
  (let definition := "SELECT a" +:+ nl +:+ "  FROM t;" +:+ nl +:+ ";" in
   containsByte LF (TrimSpace definition) = true /\
   HasSuffix (TrimSpace definition) ";" = true /\
   viewsRow [Some "public"; Some "v"; Some definition] [] =
     (["CREATE VIEW public.v AS SELECT a FROM t;;"], None) /\
   HasSuffix "CREATE VIEW public.v AS SELECT a FROM t;;" ";;" = true) /\
  (let definition := " SELECT a" +:+ nl +:+ "   FROM t;" in
   let stmt := "CREATE VIEW public.a" +:+ nl +:+ "b AS SELECT a FROM t;" in
   containsByte LF (TrimSpace definition) = true /\
   HasSuffix (TrimSpace definition) ";" = true /\
   viewsRow [Some "public"; Some ("a" +:+ nl +:+ "b"); Some definition] [] = ([stmt], None) /\
   containsByte LF stmt = true).
Proof. vm_compute. repeat split. Qed.

(** ** The accessors, as functions of the connection *)

Lemma Version_eq (db : DB) (log : list Call) :
  Version db log =
    (match db versionQuery [] with
     | Rows rows => forRows versionRow rows EmptyString
     | Failure err => (EmptyString, Some err)
     end, log ++ [(versionQuery, [])]).
Proof. unfold Version, bind, Query, lift. now destruct (db versionQuery []). Qed.

Lemma getPolicyDefs_eq (table : string) (db : DB) (log : list Call) :
  getPolicyDefs table db log =
    match run Version db with
    | (_, Some err) => (([], Some err), log ++ [(versionQuery, [])])
    | (version, None) =>
        let query := if HasPrefix version "9" then queryNone else queryPermissive in
        let args := [(SplitTableName table).1; (SplitTableName table).2] in
        (match db query args with
         | Rows rows => forRows (getPolicyDefsRow (SplitTableName table).2) rows []
         | Failure err => ([], Some err)
         end, log ++ [(versionQuery, []); (query, args)])
    end.
Proof.
  unfold getPolicyDefs, run. unfold bind at 1. rewrite (Version_eq db log), (Version_eq db []).
  destruct (match db versionQuery [] with
            | Rows rows => forRows versionRow rows EmptyString
            | Failure err => (EmptyString, Some err)
            end) as [version [err|]]; cbn [fst snd]; [reflexivity|].
  destruct (SplitTableName table) as [schema tbl]. cbn [fst snd].
  unfold bind, Query, lift, MatchString, r9. rewrite <- List.app_assoc. cbn [List.app].
  now destruct (db _ [schema; tbl]).
Qed.

(** An accessor that issues one query for the schema and the table and
    folds its rows returns what the rows give, whatever the log. *)
Ltac accessor_eq acc :=
  intros table db log; unfold acc;
  destruct (SplitTableName table) as [schema tbl]; cbn [fst snd];
  unfold bind, Query, lift;
  match goal with |- context [db ?q ?a] => now destruct (db q a) end.

Lemma getColumns_eq : forall table db log,
  getColumns table db log =
    (match db getColumnsQuery [(SplitTableName table).1; (SplitTableName table).2] with
     | Rows rows => forRows getColumnsRow rows []
     | Failure err => ([], Some err)
     end,
     log ++ [(getColumnsQuery, [(SplitTableName table).1; (SplitTableName table).2])]).
Proof. accessor_eq getColumns. Qed.

Lemma getPrimaryKeyColumns_eq : forall table db log,
  getPrimaryKeyColumns table db log =
    (match db getPrimaryKeyColumnsQuery [(SplitTableName table).1; (SplitTableName table).2] with
     | Rows rows => forRows getPrimaryKeyColumnsRow rows []
     | Failure err => ([], Some err)
     end,
     log ++ [(getPrimaryKeyColumnsQuery, [(SplitTableName table).1; (SplitTableName table).2])]).
Proof. accessor_eq getPrimaryKeyColumns. Qed.

Lemma getIndexDefs_eq : forall table db log,
  getIndexDefs table db log =
    (match db getIndexDefsQuery [(SplitTableName table).1; (SplitTableName table).2] with
     | Rows rows => forRows getIndexDefsRow rows []
     | Failure err => ([], Some err)
     end,
     log ++ [(getIndexDefsQuery, [(SplitTableName table).1; (SplitTableName table).2])]).
Proof. accessor_eq getIndexDefs. Qed.

Lemma getForeignDefs_eq : forall table db log,
  getForeignDefs table db log =
    (match db getForeignDefsQuery [(SplitTableName table).1; (SplitTableName table).2] with
     | Rows rows => forRows getForeignDefsRow rows []
     | Failure err => ([], Some err)
     end,
     log ++ [(getForeignDefsQuery, [(SplitTableName table).1; (SplitTableName table).2])]).
Proof. accessor_eq getForeignDefs. Qed.

Lemma getTableCheckConstraints_eq : forall table db log,
  getTableCheckConstraints table db log =
    (match db getTableCheckConstraintsQuery
             [(SplitTableName table).1; (SplitTableName table).2] with
     | Rows rows => forRows getTableCheckConstraintsRow rows ∅
     | Failure err => (∅, Some err)
     end,
     log ++ [(getTableCheckConstraintsQuery,
              [(SplitTableName table).1; (SplitTableName table).2])]).
Proof. accessor_eq getTableCheckConstraints. Qed.

Lemma getUniqueConstraints_eq : forall table db log,
  getUniqueConstraints table db log =
    (match db getUniqueConstraintsQuery [(SplitTableName table).1; (SplitTableName table).2] with
     | Rows rows => forRows (getUniqueConstraintsRow table) rows ∅
     | Failure err => (∅, Some err)
     end,
     log ++ [(getUniqueConstraintsQuery, [(SplitTableName table).1; (SplitTableName table).2])]).
Proof. accessor_eq getUniqueConstraints. Qed.

(** ** Policies *)

Lemma getPolicyDefsRow_statement (table : string) (p : policy) (defs : list string) :
  getPolicyDefsRow table (policyCells p) defs = (defs ++ [policyStatement table p], None).
Proof.
  unfold getPolicyDefsRow, policyCells, policyStatement, stripBraces,
    policyRolesPrefixRegex, policyRolesSuffixRegex.
  cbn [Scan length Nat.eqb convertAssign stringAt ptrAt lookup list_lookup].
  rewrite ReplaceAllString_prefix, ReplaceAllString_suffix.
  destruct (qual p), (with_check p); now text_norm.
Qed.

Lemma HasPrefix_app_byte (s t : string) (c : ascii) :
  s <> EmptyString -> HasPrefix (s +:+ t) (String c EmptyString) = HasPrefix s (String c EmptyString).
Proof. destruct s as [|a s]; [contradiction|]. intros _. rewrite app_cons. now rewrite !HasPrefix_byte_cons. Qed.

(** C6. A policy row whose name, permissiveness, roles and command are not
    NULL is rendered as CREATE POLICY, the name, ON, the table, AS, the
    permissiveness, FOR, the command, TO, the roles, then USING and the
    qualifier when it is not NULL, then WITH CHECK and the check when it is
    not NULL, then a semicolon.  The roles lose one opening brace at the
    start and one closing brace at the end, each only when it is there and
    no more than one at each end.  The table is the name [getPolicyDefs]
    holds after it has split off the schema. *)
Theorem policy_statement_rendered (table : string) (p : policy) (defs : list string) :
  getPolicyDefsRow table (policyCells p) defs = (defs ++ [policyStatement table p], None) /\
  (forall inner, stripBraces ("{" +:+ inner +:+ "}") = inner) /\
  (forall inner, HasSuffix inner "}" = false -> stripBraces ("{" +:+ inner) = inner) /\
  (forall inner, HasPrefix inner "{" = false -> inner <> EmptyString ->
     stripBraces (inner +:+ "}") = inner) /\
  (forall r, HasPrefix r "{" = false -> HasSuffix r "}" = false -> stripBraces r = r) /\
  stripBraces "{{a,b}}" = "{a,b}" /\
  (forall (db : DB) (log : list Call) (version : string) (policies : list policy),
     run Version db = (version, None) ->
     db (if HasPrefix version "9" then queryNone else queryPermissive)
        [(SplitTableName table).1; (SplitTableName table).2]
       = Rows (List.map policyCells policies) ->
     (getPolicyDefs table db log).1 =
       (List.map (policyStatement (SplitTableName table).2) policies, None)).
Proof.
  split; [apply getPolicyDefsRow_statement|]. repeat split.
  - intros inner. unfold stripBraces.
    change (TrimPrefix ("{" +:+ inner +:+ "}") "{") with (inner +:+ "}").
    apply TrimSuffix_app.
  - intros inner H. unfold stripBraces.
    change (TrimPrefix ("{" +:+ inner) "{") with inner.
    unfold TrimSuffix. now rewrite H.
  - intros inner H Hne. unfold stripBraces, TrimPrefix.
    rewrite HasPrefix_app_byte, H by exact Hne. apply TrimSuffix_app.
  - intros r Hp Hs. unfold stripBraces, TrimPrefix, TrimSuffix. now rewrite Hp, Hs.
  - intros db log version policies Hv Hdb. rewrite getPolicyDefs_eq, Hv. cbv zeta.
    rewrite Hdb. cbn [fst].
    rewrite (forRows_appends _ (fun row =>
               policyStatement (SplitTableName table).2
                 {| policyname := stringAt row 0; permissive := stringAt row 1;
                    roles := stringAt row 2; cmd := stringAt row 3;
                    qual := ptrAt row 4; with_check := ptrAt row 5 |})).
    + rewrite List.map_map. cbn [List.app]. f_equal.
    + intros row acc' Hin. apply List.in_map_iff in Hin as [q [<- _]].
      rewrite getPolicyDefsRow_statement. now destruct q.
Qed.

Lemma policy_statement_rendered_witness :
  stripBraces "{alice,bob" = "alice,bob" /\
  stripBraces "alice,bob}" = "alice,bob" /\
  stripBraces "alice,bob" = "alice,bob" /\
  (getPolicyDefs "public.users" (sampleDB "130005") []).1 =
    (["CREATE POLICY p_users ON users AS PERMISSIVE FOR ALL TO alice,bob USING (id > 0);"], None).
Proof.
  pose proof (policy_statement_rendered "public.users" (samplePolicy "PERMISSIVE") [])
    as (_ & _ & H1 & H2 & H3 & _ & H4).
  split; [apply (H1 "alice,bob"); reflexivity|].
  split; [apply (H2 "alice,bob"); [reflexivity | discriminate]|].
  split; [apply (H3 "alice,bob"); reflexivity|].
  apply (H4 (sampleDB "130005") [] "130005" [samplePolicy "PERMISSIVE"]); reflexivity.
Defined.

(** ** The server version *)

Lemma forRows_Forall {A} (P : A -> Prop) (body : Row -> list A -> Ret (list A))
    (rows : list Row) (acc : list A) :
  Forall P acc ->
  (forall row acc0 acc1, In row rows -> Forall P acc0 -> body row acc0 = (acc1, None) ->
     Forall P acc1) ->
  Forall P (forRows body rows acc).1.
Proof.
  revert acc. induction rows as [|row rows IH]; intros acc Hacc Hbody; simpl; [exact Hacc|].
  destruct (body row acc) as [acc1 [err|]] eqn:E; [constructor|].
  apply IH.
  - apply (Hbody row acc acc1); [now left | exact Hacc | exact E].
  - intros row' acc0 acc2 Hin. apply Hbody. now right.
Qed.

(** What a policy row that scans is rendered as. *)
Lemma getPolicyDefsRow_scanned (table : string) (row : Row) (defs : list string) :
  Scan [destString; destString; destString; destString; destNullString; destNullString] row
    = None ->
  getPolicyDefsRow table row defs =
    (defs ++ [policyStatement table
                {| policyname := stringAt row 0; permissive := stringAt row 1;
                   roles := stringAt row 2; cmd := stringAt row 3;
                   qual := ptrAt row 4; with_check := ptrAt row 5 |}], None).
Proof.
  intros H. unfold getPolicyDefsRow. rewrite H.
  unfold policyStatement, stripBraces, policyRolesPrefixRegex, policyRolesSuffixRegex.
  rewrite ReplaceAllString_prefix, ReplaceAllString_suffix.
  cbn [policyname permissive roles cmd qual with_check].
  destruct (ptrAt row 4), (ptrAt row 5); now text_norm.
Qed.

(** A policy row with an empty permissiveness is rendered with nothing
    between AS and FOR. *)
Lemma getPolicyDefsRow_empty_permissive (table : string) (row : Row) (defs defs' : list string) :
  ptrAt row 1 = Some EmptyString ->
  getPolicyDefsRow table row defs = (defs', None) ->
  exists name rest,
    defs' = defs ++ ["CREATE POLICY " +:+ name +:+ " ON " +:+ table +:+ " AS  FOR " +:+ rest].
Proof.
  intros Hperm Hrow.
  destruct (Scan [destString; destString; destString; destString; destNullString;
                  destNullString] row) as [err|] eqn:E.
  - unfold getPolicyDefsRow in Hrow. rewrite E in Hrow. discriminate.
  - rewrite (getPolicyDefsRow_scanned _ _ _ E) in Hrow. injection Hrow as <-.
    unfold policyStatement. cbn [policyname permissive roles cmd qual with_check].
    unfold stringAt at 2. rewrite Hperm.
    eexists (stringAt row 0), _. reflexivity.
Qed.

(** C5. [getPolicyDefs] issues the version query once.  When the version
    begins with 9, as 90624 does, its second query is the one that selects an
    empty text for the permissiveness, and every policy it renders, given
    that the server returns that empty text, has nothing between AS and FOR;
    when the version does not begin with 9, as 130005 does not, its second
    query is the one that selects the permissive column.  When the version
    cannot be fetched it issues no second query. *)
Theorem getPolicyDefs_version (table : string) (db : DB) (log : list Call) :
  countCalls versionQuery (issued (getPolicyDefs table) db) = 1%nat /\
  (forall version, run Version db = (version, None) ->
     (getPolicyDefs table db log).2 =
       log ++ [(versionQuery, []);
               (if HasPrefix version "9" then queryNone else queryPermissive,
                [(SplitTableName table).1; (SplitTableName table).2])]) /\
  (forall version err, run Version db = (version, Some err) ->
     getPolicyDefs table db log = (([], Some err), log ++ [(versionQuery, [])])) /\
  HasPrefix "90624" "9" = true /\ HasPrefix "130005" "9" = false /\
  (forall version rows, run Version db = (version, None) ->
     HasPrefix version "9" = true ->
     db queryNone [(SplitTableName table).1; (SplitTableName table).2] = Rows rows ->
     Forall (fun row => ptrAt row 1 = Some EmptyString) rows ->
     Forall (fun def => exists name rest,
               def = "CREATE POLICY " +:+ name +:+ " ON " +:+ (SplitTableName table).2
                       +:+ " AS  FOR " +:+ rest)
       (getPolicyDefs table db log).1.1).
Proof.
  split; [|split; [|split; [|split; [reflexivity | split; [reflexivity|]]]]].
  - unfold issued. rewrite getPolicyDefs_eq.
    destruct (run Version db) as [version [err|]]; [reflexivity|].
    cbv zeta. cbn [snd List.app]. now destruct (HasPrefix version "9").
  - intros version Hv. now rewrite getPolicyDefs_eq, Hv.
  - intros version err Hv. now rewrite getPolicyDefs_eq, Hv.
  - intros version rows Hv H9 Hdb Hrows. rewrite getPolicyDefs_eq, Hv. cbv zeta.
    rewrite H9, Hdb. cbn [fst]. apply forRows_Forall; [constructor|].
    intros row acc0 acc1 Hin Hacc Hrow. rewrite List.Forall_forall in Hrows.
    destruct (getPolicyDefsRow_empty_permissive _ row acc0 acc1 (Hrows row Hin) Hrow)
      as (name & rest & ->).
    apply Forall_app. split; [exact Hacc|]. constructor; [|constructor]. now exists name, rest.
Qed.

Lemma getPolicyDefs_version_witness :
  (getPolicyDefs "public.users" (sampleDB "90624") []).2 =
    [(versionQuery, []); (queryNone, ["public"; "users"])] /\
  (getPolicyDefs "public.users" (sampleDB "130005") []).2 =
    [(versionQuery, []); (queryPermissive, ["public"; "users"])] /\
  Forall (fun def => exists name rest,
            def = "CREATE POLICY " +:+ name +:+ " ON " +:+ "users" +:+ " AS  FOR " +:+ rest)
    (getPolicyDefs "public.users" (sampleDB "90624") []).1.1.
Proof.
  pose proof (getPolicyDefs_version "public.users" (sampleDB "90624") [])
    as (_ & H9 & _ & _ & _ & Hempty).
  pose proof (getPolicyDefs_version "public.users" (sampleDB "130005") [])
    as (_ & H13 & _).
  split; [|split].
  - apply (H9 "90624"). reflexivity.
  - apply (H13 "130005"). reflexivity.
  - apply (Hempty "90624" [policyCells (samplePolicy EmptyString)]);
      [reflexivity | reflexivity | reflexivity | repeat constructor].
Defined.

Lemma forRows_versionRow (rows : list Row) (last : Row) (version : string) :
  Forall (fun row => Scan [destString; destString; destString; destString] row = None)
    (rows ++ [last]) ->
  forRows versionRow (rows ++ [last]) version = (stringAt last 1, None).
Proof.
  revert version. induction rows as [|row rows IH]; intros version H.
  - apply Forall_inv in H. simpl. unfold versionRow. now rewrite H.
  - change ((row :: rows) ++ [last]) with (row :: (rows ++ [last])) in *.
    pose proof (Forall_inv H) as Hrow. apply Forall_inv_tail in H.
    cbn [forRows]. unfold versionRow at 1. rewrite Hrow. now apply IH.
Qed.

(** C10. When the settings query returns no row, [Version] returns the
    empty text and no error, and [getPolicyDefs] then issues the query that
    selects the permissive column.  When the query returns rows that scan,
    [Version] returns the setting of the last of them. *)
Theorem Version_last_row (db : DB) (log : list Call) :
  (db versionQuery [] = Rows [] ->
     Version db log = ((EmptyString, None), log ++ [(versionQuery, [])]) /\
     forall table,
       (getPolicyDefs table db log).2 =
         log ++ [(versionQuery, []);
                 (queryPermissive, [(SplitTableName table).1; (SplitTableName table).2])]) /\
  (forall rows last,
     db versionQuery [] = Rows (rows ++ [last]) ->
     Forall (fun row => Scan [destString; destString; destString; destString] row = None)
       (rows ++ [last]) ->
     Version db log = ((stringAt last 1, None), log ++ [(versionQuery, [])])).
Proof.
  split.
  - intros Hdb. split; [now rewrite Version_eq, Hdb|].
    intros table. rewrite getPolicyDefs_eq. unfold run. now rewrite Version_eq, Hdb.
  - intros rows last Hdb Hscan. rewrite Version_eq, Hdb. now rewrite forRows_versionRow.
Qed.

Lemma Version_last_row_witness :
  Version noVersionDB [] = ((EmptyString, None), [(versionQuery, [])]) /\
  (getPolicyDefs "public.users" noVersionDB []).2 =
    [(versionQuery, []); (queryPermissive, ["public"; "users"])] /\
  Version (sampleDB "130005") [] = (("130005", None), [(versionQuery, [])]).
Proof.
  pose proof (Version_last_row noVersionDB []) as [Hnone _].
  pose proof (Version_last_row (sampleDB "130005") []) as [_ Hlast].
  destruct (Hnone eq_refl) as [Hversion Hquery].
  split; [exact Hversion | split; [exact (Hquery "public.users")|]].
  apply (Hlast [] [Some "server_version_num"; Some "130005"; Some "130005"; Some "130005"]).
  - reflexivity.
  - repeat constructor.
Defined.

(** ** Triggers *)

(** C9. [Triggers] returns the nil list and no error whatever the
    connection answers, and issues no query: no statement of a trigger comes
    out of it. *)
Theorem Triggers_nil (db : DB) (log : list Call) :
  Triggers db log = (([], None), log) /\
  (forall stmt, ~ In stmt (Triggers db log).1.1).
Proof. split; [reflexivity | intros stmt []]. Qed.

(** ** [DumpTableDDL] *)

Lemma bind_run {A B} `{Zero B} (m : M A) (k : A -> M B) (db : DB) (log : list Call) :
  (bind m k db log).1 =
    match (m db log).1 with
    | (a, None) => (k a db (m db log).2).1
    | (_, Some err) => (zero, Some err)
    end.
Proof. unfold bind. now destruct (m db log) as [[a [err|]] log']. Qed.

Lemma getColumns_run table db log : (getColumns table db log).1 = run (getColumns table) db.
Proof. unfold run. now rewrite !getColumns_eq. Qed.

Lemma getPrimaryKeyColumns_run table db log :
  (getPrimaryKeyColumns table db log).1 = run (getPrimaryKeyColumns table) db.
Proof. unfold run. now rewrite !getPrimaryKeyColumns_eq. Qed.

Lemma getIndexDefs_run table db log : (getIndexDefs table db log).1 = run (getIndexDefs table) db.
Proof. unfold run. now rewrite !getIndexDefs_eq. Qed.

Lemma getForeignDefs_run table db log :
  (getForeignDefs table db log).1 = run (getForeignDefs table) db.
Proof. unfold run. now rewrite !getForeignDefs_eq. Qed.

Lemma getPolicyDefs_run table db log :
  (getPolicyDefs table db log).1 = run (getPolicyDefs table) db.
Proof.
  unfold run at 1. rewrite !getPolicyDefs_eq.
  now destruct (run Version db) as [version [err|]].
Qed.

Lemma getTableCheckConstraints_run table db log :
  (getTableCheckConstraints table db log).1 = run (getTableCheckConstraints table) db.
Proof. unfold run. now rewrite !getTableCheckConstraints_eq. Qed.

Lemma getUniqueConstraints_run table db log :
  (getUniqueConstraints table db log).1 = run (getUniqueConstraints table) db.
Proof. unfold run. now rewrite !getUniqueConstraints_eq. Qed.

(** A loop over rows returns the error of the first row whose body fails. *)
Lemma forRows_fails {A} `{Zero A} (body : Row -> A -> Ret A) (before after : list Row)
    (row : Row) (acc : A) (err : error) :
  (forRows body before acc).2 = None ->
  (body row (forRows body before acc).1).2 = Some err ->
  forRows body (before ++ row :: after) acc = (zero, Some err).
Proof.
  revert acc. induction before as [|r before IH]; intros acc Hbefore Hrow; simpl in *.
  - destruct (body row acc) as [acc' [e|]]; [|discriminate]. simpl in Hrow. congruence.
  - destruct (body r acc) as [acc' [e|]]; [discriminate|]. now apply IH.
Qed.

Lemma getColumnsRow_Atoi (row : Row) (cols : list column) (s : string) (n : Z) (err : error) :
  Scan [destString; destStringPtr; destString; destStringPtr; destString;
        destStringPtr; destStringPtr; destStringPtr] row = None ->
  ptrAt row 3 = Some s -> Atoi s = (n, Some err) ->
  getColumnsRow row cols = ([], Some err).
Proof. intros Hscan Hlen Hatoi. unfold getColumnsRow. now rewrite Hscan, Hlen, Hatoi. Qed.

(** C8. [DumpTableDDL] returns the empty text and the error of the first of
    its seven accessors that fails, and the text [buildDumpTableDDL] builds
    from their results when none fails: beside an error the text is empty.
    A character length that [strconv.Atoi] rejects makes [getColumns], and so
    [DumpTableDDL], return the error of [Atoi]. *)
Theorem DumpTableDDL_all_or_nothing (checkOrder uniqueOrder : rangeOrder) (table : string)
    (db : DB) (log : list Call) :
  let cols := run (getColumns table) db in
  let pkeyCols := run (getPrimaryKeyColumns table) db in
  let indexDefs := run (getIndexDefs table) db in
  let foreignDefs := run (getForeignDefs table) db in
  let policyDefs := run (getPolicyDefs table) db in
  let checkConstraints := run (getTableCheckConstraints table) db in
  let uniqueConstraints := run (getUniqueConstraints table) db in
  let result := (DumpTableDDL checkOrder uniqueOrder table db log).1 in
  result =
    match firstError [cols.2; pkeyCols.2; indexDefs.2; foreignDefs.2; policyDefs.2;
                      checkConstraints.2; uniqueConstraints.2] with
    | Some err => (EmptyString, Some err)
    | None =>
        (buildDumpTableDDL checkOrder uniqueOrder table cols.1 pkeyCols.1 indexDefs.1
           foreignDefs.1 policyDefs.1 checkConstraints.1 uniqueConstraints.1, None)
    end /\
  (forall err, result.2 = Some err -> result.1 = EmptyString) /\
  (forall before row after s n err,
     db getColumnsQuery [(SplitTableName table).1; (SplitTableName table).2]
       = Rows (before ++ row :: after) ->
     (forRows getColumnsRow before []).2 = None ->
     Scan [destString; destStringPtr; destString; destStringPtr; destString;
           destStringPtr; destStringPtr; destStringPtr] row = None ->
     ptrAt row 3 = Some s -> Atoi s = (n, Some err) ->
     cols = ([], Some err) /\ result = (EmptyString, Some err)).
Proof.
  intros cols pkeyCols indexDefs foreignDefs policyDefs checkConstraints uniqueConstraints
    result.
  assert (Hresult : result =
    match firstError [cols.2; pkeyCols.2; indexDefs.2; foreignDefs.2; policyDefs.2;
                      checkConstraints.2; uniqueConstraints.2] with
    | Some err => (EmptyString, Some err)
    | None =>
        (buildDumpTableDDL checkOrder uniqueOrder table cols.1 pkeyCols.1 indexDefs.1
           foreignDefs.1 policyDefs.1 checkConstraints.1 uniqueConstraints.1, None)
    end).
  { unfold result, DumpTableDDL.
    rewrite bind_run, getColumns_run. fold cols.
    destruct cols as [c [e|]]; [reflexivity|]. cbn [firstError fst snd].
    rewrite bind_run, getPrimaryKeyColumns_run. fold pkeyCols.
    destruct pkeyCols as [p [e|]]; [reflexivity|]. cbn [firstError fst snd].
    rewrite bind_run, getIndexDefs_run. fold indexDefs.
    destruct indexDefs as [i [e|]]; [reflexivity|]. cbn [firstError fst snd].
    rewrite bind_run, getForeignDefs_run. fold foreignDefs.
    destruct foreignDefs as [f [e|]]; [reflexivity|]. cbn [firstError fst snd].
    rewrite bind_run, getPolicyDefs_run. fold policyDefs.
    destruct policyDefs as [pd [e|]]; [reflexivity|]. cbn [firstError fst snd].
    rewrite bind_run, getTableCheckConstraints_run. fold checkConstraints.
    destruct checkConstraints as [cc [e|]]; [reflexivity|]. cbn [firstError fst snd].
    rewrite bind_run, getUniqueConstraints_run. fold uniqueConstraints.
    destruct uniqueConstraints as [uc [e|]]; [reflexivity|]. reflexivity. }
  split; [exact Hresult|]. split.
  - intros err. rewrite Hresult. now destruct (firstError _).
  - intros before row after s n err Hdb Hbefore Hscan Hlen Hatoi.
    assert (Hcols : cols = ([], Some err)).
    { unfold cols, run. rewrite getColumns_eq, Hdb. cbn [fst].
      apply forRows_fails; [exact Hbefore|].
      now rewrite (getColumnsRow_Atoi row _ s n err). }
    split; [exact Hcols|]. rewrite Hresult, Hcols. reflexivity.
Qed.

Lemma DumpTableDDL_all_or_nothing_witness :
  (DumpTableDDL forwardOrder forwardOrder "public.users" badLengthDB []).1 =
    (EmptyString, Some (NumError "Atoi" "25x" ErrSyntax)).
Proof.
  pose proof (DumpTableDDL_all_or_nothing forwardOrder forwardOrder "public.users"
                badLengthDB []) as H.
  cbv zeta in H. destruct H as (_ & _ & H).
  apply (H [idRow] badLengthRow [] "25x" 0 (NumError "Atoi" "25x" ErrSyntax));
    reflexivity.
Defined.

(** * Further properties of the adapter *)

(** ** Qualified table names *)

Lemma cutByte_none (c : ascii) (s : string) :
  containsByte c s = false -> cutByte c s = None.
Proof.
  induction s as [|d s IH]; [reflexivity|]. cbn [containsByte cutByte].
  intros [Hd Hs]%orb_false_iff. now rewrite Hd, IH.
Qed.

Lemma cutByte_first (c : ascii) (before after : string) :
  containsByte c before = false ->
  cutByte c (before +:+ String c after) = Some (before, after).
Proof.
  induction before as [|d before IH]; intros H.
  - rewrite app_nil_l. cbn [cutByte]. now rewrite Ascii.eqb_refl.
  - cbn [containsByte] in H. apply orb_false_iff in H as [Hd Hb].
    rewrite app_cons. cbn [cutByte]. now rewrite Hd, IH.
Qed.

Lemma cutByte_some (c : ascii) (s : string) :
  containsByte c s = true ->
  exists before after,
    s = before +:+ String c after /\ containsByte c before = false.
Proof.
  induction s as [|d s IH]; [discriminate|]. cbn [containsByte].
  destruct (Ascii.eqb_spec d c) as [->|Hne]; cbn [orb].
  - intros _. now exists EmptyString, s.
  - intros (before & after & -> & Hb)%IH. exists (String d before), after.
    split; [reflexivity|]. cbn [containsByte]. apply Ascii.eqb_neq in Hne. now rewrite Hne.
Qed.

(** X1. A name without a dot is a table of the schema public; a name with
    a dot is split at its first dot, so the schema holds no dot, the table
    keeps the later ones, and schema, dot and table give the name back. *)
Theorem SplitTableName_first_dot (table : string) :
  (containsByte "." table = false -> SplitTableName table = ("public", table)) /\
  (containsByte "." table = true ->
     containsByte "." (SplitTableName table).1 = false /\
     (SplitTableName table).1 +:+ "." +:+ (SplitTableName table).2 = table) /\
  (forall schema name,
     containsByte "." schema = false ->
     SplitTableName (schema +:+ "." +:+ name) = (schema, name)).
Proof.
  unfold SplitTableName, SplitN2. split; [|split].
  - intros H. now rewrite cutByte_none.
  - intros (before & after & -> & Hb)%cutByte_some.
    now rewrite cutByte_first.
  - intros schema name H. change ("." +:+ name) with (String "."%char name).
    now rewrite (cutByte_first "." schema name H).
Qed.


Lemma SplitTableName_first_dot_witness :
  SplitTableName "users" = ("public", "users") /\
  SplitTableName "audit.log.2024" = ("audit", "log.2024") /\
  (SplitTableName "audit.log.2024").1 +:+ "." +:+ (SplitTableName "audit.log.2024").2
    = "audit.log.2024".
Proof.
  pose proof (SplitTableName_first_dot "users") as (H1 & _ & _).
  pose proof (SplitTableName_first_dot "audit.log.2024") as (_ & H2 & H3).
  split; [apply H1; reflexivity | split; [apply (H3 "audit" "log.2024"); reflexivity|]].
  apply H2. reflexivity.
Defined.

Lemma SplitTableName_schema_name (schema name : string) :
  containsByte "." schema = false -> SplitTableName (schema +:+ "." +:+ name) = (schema, name).
Proof.
  intros H. unfold SplitTableName, SplitN2. change ("." +:+ name) with (String "."%char name).
  now rewrite (cutByte_first "." schema name H).
Qed.

Lemma tableNamesRow_pair (kv : string * string) (tables : list string) :
  tableNamesRow (pairCells kv) tables = (tables ++ [kv.1 +:+ "." +:+ kv.2], None).
Proof. reflexivity. Qed.

(** X2. [TableNames] issues its one query and returns, for rows without
    NULL, the schema, a dot and the name of each row in the order of the
    rows.  [SplitTableName] gives back the schema and the name of every row
    whose schema holds no dot. *)
Theorem TableNames_qualified (db : DB) (log : list Call) (tables : list (string * string)) :
  db tableNamesQuery [] = Rows (List.map pairCells tables) ->
  TableNames db log =
    ((List.map (fun kv => kv.1 +:+ "." +:+ kv.2) tables, None),
     log ++ [(tableNamesQuery, [])]) /\
  (Forall (fun kv => containsByte "." kv.1 = false) tables ->
   List.map SplitTableName (TableNames db log).1.1 = tables).
Proof.
  intros Hdb.
  assert (H : TableNames db log =
    ((List.map (fun kv => kv.1 +:+ "." +:+ kv.2) tables, None),
     log ++ [(tableNamesQuery, [])])).
  { unfold TableNames, bind, Query, lift. rewrite Hdb.
    rewrite (forRows_appends tableNamesRow
               (fun row => stringAt row 0 +:+ "." +:+ stringAt row 1)).
    - now rewrite List.map_map.
    - intros row acc' Hin. apply List.in_map_iff in Hin as [kv [<- _]].
      apply tableNamesRow_pair. }
  split; [exact H|]. intros Hdots. rewrite H. cbn [fst]. rewrite List.map_map.
  clear H Hdb. induction Hdots as [|[schema name] rest Hschema _ IH]; [reflexivity|].
  cbn [List.map fst snd] in *. rewrite IH.
  now rewrite (SplitTableName_schema_name schema name Hschema).
Qed.

Lemma TableNames_qualified_witness :
  TableNames catalogDB [] =
    ((["public.users"; "audit.log"], None), [(tableNamesQuery, [])]) /\
  List.map SplitTableName (TableNames catalogDB []).1.1 =
    [("public", "users"); ("audit", "log")].
Proof.
  pose proof (TableNames_qualified catalogDB [] [("public", "users"); ("audit", "log")]
                eq_refl) as [H1 H2].
  split; [exact H1|]. apply H2. repeat constructor.
Defined.

(** X3. [TableNames] returns no name beside an error: the error of the
    server when the query fails, the error of the first row that does not
    scan otherwise, whatever the rows before and after it hold. *)
Theorem TableNames_fails (db : DB) (log : list Call) :
  (forall err, db tableNamesQuery [] = Failure err ->
     TableNames db log = (([], Some err), log ++ [(tableNamesQuery, [])])) /\
  (forall before row after err,
     db tableNamesQuery [] = Rows (List.map pairCells before ++ row :: after) ->
     Scan [destString; destString] row = Some err ->
     TableNames db log = (([], Some err), log ++ [(tableNamesQuery, [])])).
Proof.
  split.
  - intros err Hdb. unfold TableNames, bind, Query, lift. now rewrite Hdb.
  - intros before row after err Hdb Hscan. unfold TableNames, bind, Query, lift.
    rewrite Hdb. f_equal. apply forRows_fails.
    + rewrite (forRows_appends tableNamesRow
                 (fun row => stringAt row 0 +:+ "." +:+ stringAt row 1)); [reflexivity|].
      intros r acc' Hin. apply List.in_map_iff in Hin as [kv [<- _]].
      apply tableNamesRow_pair.
    + unfold tableNamesRow. now rewrite Hscan.
Qed.

Lemma TableNames_fails_witness :
  TableNames nullNameDB [] = (([], Some (ScanNull 1)), [(tableNamesQuery, [])]).
Proof.
  pose proof (TableNames_fails nullNameDB []) as [_ H].
  apply (H [("public", "users")] [Some "audit"; None] [pairCells ("audit", "log")]);
    reflexivity.
Defined.

(** ** Enum types *)

Lemma forRange_appends {A B} (f : A -> B) (i : nat) (xs : list A) (acc : list B) :
  forRange (fun _ x acc => acc ++ [f x]) i xs acc = acc ++ List.map f xs.
Proof.
  revert i acc. induction xs as [|x xs IH]; intros i acc; simpl.
  - now rewrite List.app_nil_r.
  - rewrite IH. now rewrite <- List.app_assoc.
Qed.

Lemma Split_no_sep (c : ascii) (s : string) :
  containsByte c s = false -> Split s c = [s].
Proof.
  induction s as [|d s IH]; [reflexivity|]. cbn [containsByte Split].
  intros [Hd Hs]%orb_false_iff. now rewrite Hd, IH.
Qed.

Lemma Split_first (c : ascii) (s rest : string) :
  containsByte c s = false -> Split (s +:+ String c rest) c = s :: Split rest c.
Proof.
  induction s as [|d s IH]; intros H.
  - rewrite app_nil_l. cbn [Split]. now rewrite Ascii.eqb_refl.
  - cbn [containsByte] in H. apply orb_false_iff in H as [Hd Hs].
    rewrite app_cons. cbn [Split]. now rewrite Hd, IH.
Qed.

Lemma Split_Join (c : ascii) (pieces : list string) :
  pieces <> [] -> Forall (fun piece => containsByte c piece = false) pieces ->
  Split (Join pieces (String c EmptyString)) c = pieces.
Proof.
  intros Hne Hall. induction Hall as [|piece rest Hpiece Hrest IH]; [contradiction|].
  destruct rest as [|piece' rest].
  - now apply Split_no_sep.
  - change (Join (piece :: piece' :: rest) (String c EmptyString))
      with (piece +:+ String c (Join (piece' :: rest) (String c EmptyString))).
    rewrite Split_first by exact Hpiece. now rewrite IH.
Qed.

Lemma length_Split (c : ascii) (s : string) : length (Split s c) = S (countByte c s).
Proof.
  induction s as [|d s IH]; [reflexivity|]. cbn [Split countByte].
  destruct (Ascii.eqb d c); cbn [length]; [now rewrite IH|].
  destruct (Split s c) as [|piece pieces]; [discriminate IH | exact IH].
Qed.

Lemma typesRow_split (typeName labels : string) (ddls : list string) :
  typesRow (pairCells (typeName, labels)) ddls =
    (ddls ++ [enumStatement typeName (Split labels " ")], None).
Proof.
  unfold typesRow, pairCells, enumStatement.
  cbn [Scan length Nat.eqb convertAssign stringAt ptrAt lookup list_lookup fst snd].
  now rewrite (forRange_appends (fun label => "'" +:+ label +:+ "'")).
Qed.

(** X4. For an enum type whose labels hold no space, [Types] renders every
    label of the aggregate in quotes, in the order of the aggregate, between
    CREATE TYPE, the name, AS ENUM and the closing parenthesis and
    semicolon. *)
Theorem Types_labels (typeName : string) (labels : list string) (ddls : list string) :
  labels <> [] -> Forall (fun label => containsByte " " label = false) labels ->
  typesRow (pairCells (typeName, Join labels " ")) ddls =
    (ddls ++ [enumStatement typeName labels], None) /\
  (forall (db : DB) (log : list Call),
     db typesQuery [] = Rows [pairCells (typeName, Join labels " ")] ->
     Types db log = (([enumStatement typeName labels], None), log ++ [(typesQuery, [])])).
Proof.
  intros Hne Hall.
  assert (H : forall ddls', typesRow (pairCells (typeName, Join labels " ")) ddls' =
                (ddls' ++ [enumStatement typeName labels], None)).
  { intros ddls'. rewrite typesRow_split. now rewrite (Split_Join " " labels Hne Hall). }
  split; [apply H|]. intros db log Hdb.
  unfold Types, bind, Query, lift. rewrite Hdb. cbn [forRows]. now rewrite H.
Qed.

Lemma Types_labels_witness :
  typesRow (pairCells ("mood", "sad ok happy")) [] =
    (["CREATE TYPE mood AS ENUM ('sad', 'ok', 'happy');"], None).
Proof.
  apply (Types_labels "mood" ["sad"; "ok"; "happy"] []); [discriminate | repeat constructor].
Defined.

(** X5. [Types] renders one label more than the aggregate of the labels
    holds spaces: a label with a space in it comes out as two labels, and an
    empty aggregate as one empty label. *)
Theorem Types_label_count (typeName labels : string) (ddls : list string) :
  typesRow (pairCells (typeName, labels)) ddls =
    (ddls ++ [enumStatement typeName (Split labels " ")], None) /\
  length (Split labels " ") = S (countByte " " labels) /\
  Split EmptyString " " = [EmptyString].
Proof.
  split; [apply typesRow_split | split; [apply length_Split | reflexivity]].
Qed.

(** ** The primary key clause *)

Lemma Join_quoted (cols : list string) :
  cols <> [] ->
  dq +:+ Join cols (dq +:+ ", " +:+ dq) +:+ dq = Join (List.map quoted cols) ", ".
Proof.
  induction cols as [|c rest IH]; [contradiction|]. intros _.
  destruct rest as [|c' rest]; [reflexivity|].
  change (Join (c :: c' :: rest) (dq +:+ ", " +:+ dq))
    with (c +:+ (dq +:+ ", " +:+ dq) +:+ Join (c' :: rest) (dq +:+ ", " +:+ dq)).
  change (Join (List.map quoted (c :: c' :: rest)) ", ")
    with (quoted c +:+ ", " +:+ Join (List.map quoted (c' :: rest)) ", ").
  rewrite <- IH by discriminate. unfold quoted. now text_norm.
Qed.

(** X6. When the list of key columns is not empty, [buildDumpTableDDL]
    writes, after the last column and before the check constraints, a comma,
    a new indented line and PRIMARY KEY with every key column in double
    quotes of its own, in the order of the list, separated by a comma and a
    space. *)
Theorem primary_key_quoted (checkOrder uniqueOrder : rangeOrder) (table : string)
    (columns : list column) (pkeyCols indexDefs foreignDefs policyDefs : list string)
    (checkConstraints uniqueConstraints : gmap string string) :
  pkeyCols <> [] ->
  buildDumpTableDDL checkOrder uniqueOrder table columns pkeyCols indexDefs foreignDefs
    policyDefs checkConstraints uniqueConstraints =
  "CREATE TABLE " +:+ table +:+ " ("
    +:+ Join (List.map (fun col => nl +:+ indent +:+ columnLine col) columns) ","
    +:+ ("," +:+ nl +:+ indent +:+ "PRIMARY KEY (" +:+ Join (List.map quoted pkeyCols) ", "
           +:+ ")")
    +:+ concatAll (List.map constraintClause (checkOrder checkConstraints))
    +:+ nl +:+ ");"
    +:+ concatAll (List.map statementLine
                     (indexDefs ++ foreignDefs ++ policyDefs
                        ++ List.map snd (uniqueOrder uniqueConstraints))).
Proof.
  intros Hne. unfold buildDumpTableDDL. rewrite queryBuilderText_sections, TrimSuffix_app.
  unfold ddlText. rewrite <- (Join_quoted pkeyCols Hne).
  destruct pkeyCols as [|k ks]; [contradiction|]. unfold primaryKeyClause. now text_norm.
Qed.

Lemma primary_key_quoted_witness :
  buildDumpTableDDL forwardOrder forwardOrder "public.t" [] ["id"; "tenant_id"] [] [] [] ∅ ∅ =
    "CREATE TABLE public.t (," +:+ nl +:+ "    PRIMARY KEY (" +:+ quoted "id" +:+ ", "
      +:+ quoted "tenant_id" +:+ ")" +:+ nl +:+ ");".
Proof.
  rewrite (primary_key_quoted forwardOrder forwardOrder "public.t" [] ["id"; "tenant_id"]
             [] [] [] ∅ ∅); [reflexivity | discriminate].
Defined.

(** ** The names of the columns *)

Lemma TrimLeft_split (s cutset : string) :
  exists pre, s = pre +:+ TrimLeft s cutset /\
    allBytes (fun c => containsByte c cutset) pre = true.
Proof.
  induction s as [|c s (pre & Hs & Hpre)]; [now exists EmptyString|].
  cbn [TrimLeft]. destruct (containsByte c cutset) eqn:E.
  - exists (String c pre). split; [rewrite app_cons; now f_equal|].
    cbn [allBytes]. now rewrite E.
  - now exists EmptyString.
Qed.

Lemma TrimRight_split (s cutset : string) :
  exists post, s = TrimRight s cutset +:+ post /\
    allBytes (fun c => containsByte c cutset) post = true.
Proof.
  induction s as [|c s (post & Hs & Hpost)]; [now exists EmptyString|].
  cbn [TrimRight]. destruct (TrimRight s cutset) as [|d t] eqn:Et.
  - destruct (containsByte c cutset) eqn:E.
    + exists (String c post). rewrite app_nil_l in *. split; [now f_equal|].
      cbn [allBytes]. now rewrite E.
    + exists post. rewrite app_nil_l in Hs. now split; [rewrite app_cons, app_nil_l, <- Hs|].
  - exists post. split; [|exact Hpost]. rewrite app_cons. now f_equal.
Qed.

Lemma TrimLeft_first (s cutset : string) (c : ascii) :
  firstByte (TrimLeft s cutset) = Some c -> containsByte c cutset = false.
Proof.
  induction s as [|d s IH]; [discriminate|]. cbn [TrimLeft].
  destruct (containsByte d cutset) eqn:E; [exact IH|]. now intros [= <-].
Qed.

Lemma TrimRight_last (s cutset : string) (c : ascii) :
  lastByte (TrimRight s cutset) = Some c -> containsByte c cutset = false.
Proof.
  induction s as [|d s IH]; [discriminate|]. cbn [TrimRight].
  destruct (TrimRight s cutset) as [|e t] eqn:Et.
  - destruct (containsByte d cutset) eqn:E; [discriminate|]. now intros [= <-].
  - rewrite lastByte_cons by discriminate. exact IH.
Qed.

Lemma TrimRight_first (s cutset : string) (c : ascii) :
  firstByte (TrimRight s cutset) = Some c -> firstByte s = Some c.
Proof.
  destruct s as [|d s]; [discriminate|]. cbn [TrimRight].
  destruct (TrimRight s cutset); [|now intros [= <-]].
  destruct (containsByte d cutset); [discriminate | now intros [= <-]].
Qed.

Lemma getColumnsRow_Name (row : Row) (cols : list column) (col : column) :
  getColumnsRow row cols = (cols ++ [col], None) ->
  Name col = Trim (stringAt row 0) (dq +:+ " ").
Proof.
  unfold getColumnsRow. destruct (Scan _ row); [discriminate|].
  destruct (match ptrAt row 3 with Some s => Atoi s | None => (0, None) end) as [maxLen [err|]];
    [discriminate|].
  intros H. injection H as H. now apply app_inj_tail in H as [_ <-].
Qed.

(** X7. The name of a column read from the catalog is the catalog's name
    without the double quotes and spaces around it: it neither starts nor
    ends with a double quote or a space, and the catalog's name is the name
    between a text before and a text after that hold double quotes and
    spaces only. *)
Theorem column_name_trimmed (row : Row) (cols : list column) (col : column) :
  getColumnsRow row cols = (cols ++ [col], None) ->
  (forall c, firstByte (Name col) = Some c -> c <> DQ /\ c <> " "%char) /\
  (forall c, lastByte (Name col) = Some c -> c <> DQ /\ c <> " "%char) /\
  (exists pre post,
     stringAt row 0 = pre +:+ Name col +:+ post /\
     allBytes (fun c => containsByte c (dq +:+ " ")) pre = true /\
     allBytes (fun c => containsByte c (dq +:+ " ")) post = true).
Proof.
  intros ->%getColumnsRow_Name. unfold Trim.
  assert (Hcut : forall c, containsByte c (dq +:+ " ") = false -> c <> DQ /\ c <> " "%char).
  { intros c H. change (dq +:+ " ") with (String DQ (String " " EmptyString)) in H.
    cbn [containsByte] in H. apply orb_false_iff in H as [H1 H2].
    apply orb_false_iff in H2 as [H2 _].
    rewrite Ascii.eqb_sym in H1. rewrite Ascii.eqb_sym in H2.
    apply Ascii.eqb_neq in H1, H2. split; congruence. }
  split; [|split].
  - intros c H. apply Hcut. apply TrimRight_first in H. now apply TrimLeft_first in H.
  - intros c H. apply Hcut. now apply TrimRight_last in H.
  - destruct (TrimLeft_split (stringAt row 0) (dq +:+ " ")) as (pre & Hs & Hpre).
    destruct (TrimRight_split (TrimLeft (stringAt row 0) (dq +:+ " ")) (dq +:+ " "))
      as (post & Ht & Hpost).
    exists pre, post. split; [|now split]. rewrite Hs at 1. now rewrite Ht at 1.
Qed.

Lemma column_name_trimmed_witness :
  exists pre post,
    stringAt quotedNameRow 0 = pre +:+ "first name" +:+ post /\
    allBytes (fun c => containsByte c (dq +:+ " ")) pre = true /\
    allBytes (fun c => containsByte c (dq +:+ " ")) post = true.
Proof.
  apply (column_name_trimmed quotedNameRow []
           {| Name := "first name"; dataType := "text"; Length := 0; Nullable := true;
              Default := EmptyString; IsAutoIncrement := false;
              IdentityGeneration := EmptyString; Check_ := None |}).
  reflexivity.
Defined.

(** ** One column for every row *)

(** A loop over rows whose body appends one element per row, when it
    returns no error, appends one element for each row, in their order. *)
Lemma forRows_each {A} (R : Row -> A -> Prop) (body : Row -> list A -> Ret (list A))
    (rows : list Row) (acc res : list A) :
  (forall row acc0 acc1, body row acc0 = (acc1, None) -> exists x, acc1 = acc0 ++ [x] /\ R row x) ->
  forRows body rows acc = (res, None) ->
  exists xs, res = acc ++ xs /\ Forall2 R rows xs.
Proof.
  intros Hbody. revert acc. induction rows as [|row rows IH]; intros acc H; simpl in H.
  - injection H as <-. exists []. split; [now rewrite List.app_nil_r | constructor].
  - destruct (body row acc) as [acc1 [err|]] eqn:E; [discriminate|].
    destruct (Hbody row acc acc1 E) as (x & -> & Hx).
    destruct (IH _ H) as (xs & -> & Hxs). exists (x :: xs).
    split; [now rewrite <- List.app_assoc | now constructor].
Qed.

Lemma getColumnsRow_appends (row : Row) (cols cols' : list column) :
  getColumnsRow row cols = (cols', None) ->
  exists col, cols' = cols ++ [col] /\
    (Name col = Trim (stringAt row 0) (dq +:+ " ") /\ dataType col = stringAt row 4).
Proof.
  unfold getColumnsRow. destruct (Scan _ row); [discriminate|].
  destruct (match ptrAt row 3 with Some s => Atoi s | None => (0, None) end) as [maxLen [err|]];
    [discriminate|].
  intros H. injection H as <-. eexists. split; [reflexivity|]. now split.
Qed.

(** X8. When [getColumns] returns no error it returns one column for every
    row of its query, in the order of the rows, with the trimmed name and
    the type of the row: two rows of the same column name, which the query
    returns for a column with two check constraints, give two columns. *)
Theorem getColumns_one_per_row (table : string) (db : DB) (rows : list Row)
    (cols : list column) :
  db getColumnsQuery [(SplitTableName table).1; (SplitTableName table).2] = Rows rows ->
  run (getColumns table) db = (cols, None) ->
  length cols = length rows /\
  List.map Name cols = List.map (fun row => Trim (stringAt row 0) (dq +:+ " ")) rows /\
  List.map dataType cols = List.map (fun row => stringAt row 4) rows.
Proof.
  intros Hdb. unfold run. rewrite getColumns_eq, Hdb. cbn [fst]. intros H.
  apply (forRows_each (fun row col => Name col = Trim (stringAt row 0) (dq +:+ " ") /\
                                      dataType col = stringAt row 4)) in H;
    [|apply getColumnsRow_appends].
  destruct H as (xs & -> & Hxs). cbn [List.app]. clear Hdb.
  induction Hxs as [|row col rows' cols' [Hn Ht] _ (IHl & IHn & IHt)]; [now repeat split|].
  cbn [length List.map]. now rewrite IHl, IHn, IHt, Hn, Ht.
Qed.

Lemma getColumns_one_per_row_witness :
  List.map Name (run (getColumns "public.users") twoChecksDB).1 = ["age"; "age"].
Proof.
  pose proof (getColumns_one_per_row "public.users" twoChecksDB
                [ageRow "age_min" "CHECK (age >= 0)"; ageRow "age_max" "CHECK (age < 150)"]
                (run (getColumns "public.users") twoChecksDB).1 eq_refl eq_refl)
    as (_ & H & _).
  rewrite H. reflexivity.
Defined.

(** ** The queries of [DumpTableDDL] *)

Ltac accessor_log eq :=
  intros table db log; unfold run; now rewrite !eq.

Lemma getColumns_log : forall table db log,
  getColumns table db log =
    (run (getColumns table) db,
     log ++ [(getColumnsQuery, [(SplitTableName table).1; (SplitTableName table).2])]).
Proof. accessor_log getColumns_eq. Qed.

Lemma getPrimaryKeyColumns_log : forall table db log,
  getPrimaryKeyColumns table db log =
    (run (getPrimaryKeyColumns table) db,
     log ++ [(getPrimaryKeyColumnsQuery, [(SplitTableName table).1; (SplitTableName table).2])]).
Proof. accessor_log getPrimaryKeyColumns_eq. Qed.

Lemma getIndexDefs_log : forall table db log,
  getIndexDefs table db log =
    (run (getIndexDefs table) db,
     log ++ [(getIndexDefsQuery, [(SplitTableName table).1; (SplitTableName table).2])]).
Proof. accessor_log getIndexDefs_eq. Qed.

Lemma getForeignDefs_log : forall table db log,
  getForeignDefs table db log =
    (run (getForeignDefs table) db,
     log ++ [(getForeignDefsQuery, [(SplitTableName table).1; (SplitTableName table).2])]).
Proof. accessor_log getForeignDefs_eq. Qed.

Lemma getTableCheckConstraints_log : forall table db log,
  getTableCheckConstraints table db log =
    (run (getTableCheckConstraints table) db,
     log ++ [(getTableCheckConstraintsQuery,
              [(SplitTableName table).1; (SplitTableName table).2])]).
Proof. accessor_log getTableCheckConstraints_eq. Qed.

Lemma getUniqueConstraints_log : forall table db log,
  getUniqueConstraints table db log =
    (run (getUniqueConstraints table) db,
     log ++ [(getUniqueConstraintsQuery, [(SplitTableName table).1; (SplitTableName table).2])]).
Proof. accessor_log getUniqueConstraints_eq. Qed.

Lemma getPolicyDefs_log (table : string) (db : DB) (log : list Call) :
  getPolicyDefs table db log =
    (run (getPolicyDefs table) db,
     log ++ (versionQuery, []) ::
       match (run Version db).2 with
       | Some _ => []
       | None =>
           [(if HasPrefix (run Version db).1 "9" then queryNone else queryPermissive,
             [(SplitTableName table).1; (SplitTableName table).2])]
       end).
Proof.
  unfold run at 1. rewrite !getPolicyDefs_eq.
  now destruct (run Version db) as [version [err|]].
Qed.

Lemma getPolicyDefs_Version_fails (table : string) (db : DB) (err : error) :
  (run Version db).2 = Some err -> (run (getPolicyDefs table) db).2 = Some err.
Proof.
  intros H. unfold run at 1. rewrite getPolicyDefs_eq.
  destruct (run Version db) as [version [e|]]; [|discriminate]. now injection H as ->.
Qed.

Ltac dump_step H lemma :=
  unfold bind at 1 in H; rewrite lemma in H;
  match type of H with
  | context [run ?m ?db] =>
      lazymatch m with
      | Version => fail
      | _ => destruct (run m db) as [? [?|]] eqn:?
      end
  end; cbn beta iota in H.

Ltac dump_stopped H issued :=
  rewrite H; cbn [fst snd]; rewrite <- ?List.app_assoc; cbn [List.app];
  split; [discriminate|]; split;
  [ exists issued; eexists; split; [reflexivity|]; split; [reflexivity | discriminate]
  | try (intros ? Hbad; cbn [snd] in Hbad; discriminate Hbad) ].

(** X9. [DumpTableDDL] issues its queries in one order: columns, primary
    key, indexes, foreign keys, version, policies, check constraints, unique
    constraints, every one but the version query for the schema and the
    table of the name.  It issues them all when it returns no error; when an
    accessor fails it has issued the queries up to that accessor and issues
    no other; when [getColumns] fails it has issued one query. *)
Theorem DumpTableDDL_queries (checkOrder uniqueOrder : rangeOrder) (table : string)
    (db : DB) (log : list Call) :
  let out := DumpTableDDL checkOrder uniqueOrder table db log in
  let queries := dumpQueries table (run Version db).1 in
  (out.1.2 = None -> out.2 = log ++ queries) /\
  (exists issued rest, out.2 = log ++ issued /\ queries = issued ++ rest /\ issued <> []) /\
  (forall err, (run (getColumns table) db).2 = Some err ->
     out.2 = log ++ [(getColumnsQuery, [(SplitTableName table).1; (SplitTableName table).2])]).
Proof.
  cbv zeta. remember (DumpTableDDL checkOrder uniqueOrder table db log) as out eqn:Hout.
  unfold DumpTableDDL in Hout. unfold dumpQueries.
  set (args := [(SplitTableName table).1; (SplitTableName table).2]) in *.
  dump_step Hout getColumns_log.
  { dump_stopped Hout [(getColumnsQuery, args)]. intros; reflexivity. }
  dump_step Hout getPrimaryKeyColumns_log.
  { dump_stopped Hout [(getColumnsQuery, args); (getPrimaryKeyColumnsQuery, args)]. }
  dump_step Hout getIndexDefs_log.
  { dump_stopped Hout [(getColumnsQuery, args); (getPrimaryKeyColumnsQuery, args);
                       (getIndexDefsQuery, args)]. }
  dump_step Hout getForeignDefs_log.
  { dump_stopped Hout [(getColumnsQuery, args); (getPrimaryKeyColumnsQuery, args);
                       (getIndexDefsQuery, args); (getForeignDefsQuery, args)]. }
  dump_step Hout getPolicyDefs_log.
  { destruct (run Version db) as [version [verr|]]; cbn [fst snd] in *.
    - dump_stopped Hout [(getColumnsQuery, args); (getPrimaryKeyColumnsQuery, args);
                         (getIndexDefsQuery, args); (getForeignDefsQuery, args);
                         (versionQuery, @nil string)].
    - dump_stopped Hout [(getColumnsQuery, args); (getPrimaryKeyColumnsQuery, args);
                         (getIndexDefsQuery, args); (getForeignDefsQuery, args);
                         (versionQuery, @nil string);
                         (if HasPrefix version "9" then queryNone else queryPermissive, args)]. }
  assert (Hv : (run Version db).2 = None).
  { destruct ((run Version db).2) as [verr|] eqn:Hverr; [|reflexivity].
    apply (getPolicyDefs_Version_fails table) in Hverr.
    match goal with H : run (getPolicyDefs table) db = _ |- _ => rewrite H in Hverr end.
    discriminate Hverr. }
  rewrite Hv in Hout.
  set (policyQuery := if HasPrefix (run Version db).1 "9" then queryNone else queryPermissive)
    in *.
  dump_step Hout getTableCheckConstraints_log.
  { dump_stopped Hout [(getColumnsQuery, args); (getPrimaryKeyColumnsQuery, args);
                       (getIndexDefsQuery, args); (getForeignDefsQuery, args);
                       (versionQuery, @nil string); (policyQuery, args);
                       (getTableCheckConstraintsQuery, args)]. }
  dump_step Hout getUniqueConstraints_log.
  { dump_stopped Hout [(getColumnsQuery, args); (getPrimaryKeyColumnsQuery, args);
                       (getIndexDefsQuery, args); (getForeignDefsQuery, args);
                       (versionQuery, @nil string); (policyQuery, args);
                       (getTableCheckConstraintsQuery, args);
                       (getUniqueConstraintsQuery, args)]. }
  unfold ret in Hout. rewrite Hout. cbn [fst snd]. rewrite <- !List.app_assoc. cbn [List.app].
  split; [reflexivity|]. split; [|discriminate].
  eexists _, []. split; [reflexivity|]. split; [reflexivity | discriminate].
Qed.

Lemma DumpTableDDL_queries_witness :
  (DumpTableDDL forwardOrder forwardOrder "public.users" (sampleDB "90624") []).2 =
    dumpQueries "public.users" "90624" /\
  (DumpTableDDL forwardOrder forwardOrder "public.users" badLengthDB []).2 =
    [(getColumnsQuery, ["public"; "users"])].
Proof.
  pose proof (DumpTableDDL_queries forwardOrder forwardOrder "public.users"
                (sampleDB "90624") []) as (H1 & _ & _).
  pose proof (DumpTableDDL_queries forwardOrder forwardOrder "public.users"
                badLengthDB []) as (_ & _ & H2).
  split; [apply H1; reflexivity|].
  apply (H2 (NumError "Atoi" "25x" ErrSyntax)). reflexivity.
Defined.

(** ** The semicolons of a policy *)

Lemma policyStatement_semicolon (table : string) (p : policy) :
  HasSuffix (policyStatement table p) ";" = true.
Proof. unfold policyStatement. rewrite <- !app_assoc. apply HasSuffix_app. Qed.

Lemma getPolicyDefs_semicolons (table : string) (db : DB) :
  Forall (fun def => HasSuffix def ";" = true) (run (getPolicyDefs table) db).1.
Proof.
  unfold run. rewrite getPolicyDefs_eq.
  destruct (run Version db) as [version [err|]]; [constructor|]. cbv zeta. cbn [fst].
  destruct (db _ _) as [rows|err]; [|constructor].
  apply forRows_Forall; [constructor|].
  intros row acc0 acc1 _ Hacc Hrow.
  destruct (Scan [destString; destString; destString; destString; destNullString;
                  destNullString] row) as [err|] eqn:E.
  - unfold getPolicyDefsRow in Hrow. rewrite E in Hrow. discriminate.
  - rewrite (getPolicyDefsRow_scanned _ _ _ E) in Hrow. injection Hrow as <-.
    apply Forall_app. split; [exact Hacc|]. constructor; [|constructor].
    apply policyStatement_semicolon.
Qed.

(** The text [DumpTableDDL] returns beside no error is the text
    [buildDumpTableDDL] builds from what the seven accessors return. *)
Lemma DumpTableDDL_returns (checkOrder uniqueOrder : rangeOrder) (table : string) (db : DB)
    (log : list Call) (out : string) :
  (DumpTableDDL checkOrder uniqueOrder table db log).1 = (out, None) ->
  out = buildDumpTableDDL checkOrder uniqueOrder table
          (run (getColumns table) db).1 (run (getPrimaryKeyColumns table) db).1
          (run (getIndexDefs table) db).1 (run (getForeignDefs table) db).1
          (run (getPolicyDefs table) db).1 (run (getTableCheckConstraints table) db).1
          (run (getUniqueConstraints table) db).1.
Proof.
  unfold DumpTableDDL.
  rewrite bind_run, getColumns_run.
  destruct (run (getColumns table) db) as [c [e|]]; [discriminate|].
  rewrite bind_run, getPrimaryKeyColumns_run.
  destruct (run (getPrimaryKeyColumns table) db) as [p [e|]]; [discriminate|].
  rewrite bind_run, getIndexDefs_run.
  destruct (run (getIndexDefs table) db) as [i [e|]]; [discriminate|].
  rewrite bind_run, getForeignDefs_run.
  destruct (run (getForeignDefs table) db) as [f [e|]]; [discriminate|].
  rewrite bind_run, getPolicyDefs_run.
  destruct (run (getPolicyDefs table) db) as [pd [e|]]; [discriminate|].
  rewrite bind_run, getTableCheckConstraints_run.
  destruct (run (getTableCheckConstraints table) db) as [cc [e|]]; [discriminate|].
  rewrite bind_run, getUniqueConstraints_run.
  destruct (run (getUniqueConstraints table) db) as [uc [e|]]; [discriminate|].
  unfold ret. cbn [fst snd]. now intros [= <-].
Qed.

(** X10. Every statement [getPolicyDefs] returns ends with a semicolon, and
    [buildDumpTableDDL] writes a semicolon after every policy definition it
    is given: in the text [buildDumpTableDDL] returns for the policies of
    [getPolicyDefs], and so in the text [DumpTableDDL] returns beside no
    error, every policy stands on a line of its own that ends with two
    semicolons. *)
Theorem policy_two_semicolons (checkOrder uniqueOrder : rangeOrder) (table : string)
    (db : DB) (defsBefore : list string) (def : string) (defsAfter : list string) :
  (run (getPolicyDefs table) db).1 = defsBefore ++ def :: defsAfter ->
  exists body,
    def = body +:+ ";" /\
    (forall (columns : list column) (pkeyCols indexDefs foreignDefs : list string)
            (checkConstraints uniqueConstraints : gmap string string),
       buildDumpTableDDL checkOrder uniqueOrder table columns pkeyCols indexDefs foreignDefs
         (run (getPolicyDefs table) db).1 checkConstraints uniqueConstraints =
       tableBody table columns pkeyCols (checkOrder checkConstraints)
         +:+ concatAll (List.map statementLine (indexDefs ++ foreignDefs ++ defsBefore))
         +:+ nl +:+ body +:+ ";;"
         +:+ concatAll (List.map statementLine
                          (defsAfter ++ List.map snd (uniqueOrder uniqueConstraints)))) /\
    (forall (log : list Call) (out : string),
       (DumpTableDDL checkOrder uniqueOrder table db log).1 = (out, None) ->
       out =
         tableBody table (run (getColumns table) db).1 (run (getPrimaryKeyColumns table) db).1
           (checkOrder (run (getTableCheckConstraints table) db).1)
           +:+ concatAll (List.map statementLine
                            ((run (getIndexDefs table) db).1
                               ++ (run (getForeignDefs table) db).1 ++ defsBefore))
           +:+ nl +:+ body +:+ ";;"
           +:+ concatAll (List.map statementLine
                            (defsAfter
                               ++ List.map snd
                                    (uniqueOrder (run (getUniqueConstraints table) db).1)))).
Proof.
  intros Hdefs. pose proof (getPolicyDefs_semicolons table db) as Hsemi.
  rewrite Hdefs in Hsemi. apply Forall_app in Hsemi as [_ Hsemi].
  apply Forall_inv in Hsemi. apply HasSuffix_inv in Hsemi as [body ->].
  exists body. split; [reflexivity|].
  assert (Hbuild : forall columns pkeyCols indexDefs foreignDefs checkConstraints
                          uniqueConstraints,
    buildDumpTableDDL checkOrder uniqueOrder table columns pkeyCols indexDefs foreignDefs
      (run (getPolicyDefs table) db).1 checkConstraints uniqueConstraints =
    tableBody table columns pkeyCols (checkOrder checkConstraints)
      +:+ concatAll (List.map statementLine (indexDefs ++ foreignDefs ++ defsBefore))
      +:+ nl +:+ body +:+ ";;"
      +:+ concatAll (List.map statementLine
                       (defsAfter ++ List.map snd (uniqueOrder uniqueConstraints)))).
  { intros. rewrite Hdefs, buildDumpTableDDL_policy.
    change ";;" with (";" +:+ ";"). now text_norm. }
  split; [exact Hbuild|].
  intros log out Hout. apply DumpTableDDL_returns in Hout. rewrite Hout. apply Hbuild.
Qed.

Lemma policy_two_semicolons_witness :
  exists body,
    policyStatement "users" (samplePolicy "PERMISSIVE") = body +:+ ";" /\
    forall out,
      (DumpTableDDL forwardOrder forwardOrder "public.users" (sampleDB "130005") []).1
        = (out, None) ->
      out =
        tableBody "public.users" [idColumn; emailColumn] ["id"] []
          +:+ nl +:+ body +:+ ";;".
Proof.
  destruct (policy_two_semicolons forwardOrder forwardOrder "public.users"
              (sampleDB "130005") [] (policyStatement "users" (samplePolicy "PERMISSIVE")) []
              eq_refl) as (body & Hbody & _ & Hdump).
  exists body. split; [exact Hbody|]. intros out Hout.
  rewrite (Hdump [] out Hout). reflexivity.
Defined.

(** ** The maps of constraints *)

Lemma fold_insert_absent (f : string -> string -> string) (pairs : list (string * string))
    (m : gmap string string) (n : string) :
  ~ In n (List.map fst pairs) ->
  fold_left (fun m kv => <[kv.1 := f kv.1 kv.2]> m) pairs m !! n = m !! n.
Proof.
  revert m. induction pairs as [|[k v] pairs IH]; intros m Hn; [reflexivity|].
  cbn [fold_left fst snd]. rewrite IH by (intros H; apply Hn; now right).
  apply lookup_insert_ne. intros ->. apply Hn. now left.
Qed.

Lemma fold_insert_last (f : string -> string -> string) (before after : list (string * string))
    (m : gmap string string) (n d : string) :
  ~ In n (List.map fst after) ->
  fold_left (fun m kv => <[kv.1 := f kv.1 kv.2]> m) (before ++ (n, d) :: after) m !! n
    = Some (f n d).
Proof.
  intros Hn. rewrite fold_left_app. cbn [fold_left fst snd].
  rewrite fold_insert_absent by exact Hn. apply lookup_insert_eq.
Qed.

Lemma fold_insert_size (f : string -> string -> string) (pairs : list (string * string))
    (m : gmap string string) :
  (size (fold_left (fun m kv => <[kv.1 := f kv.1 kv.2]> m) pairs m)
     <= size m + length pairs)%nat.
Proof.
  revert m. induction pairs as [|[k v] pairs IH]; intros m; cbn [fold_left length fst snd];
    [lia|].
  specialize (IH (<[k := f k v]> m)). rewrite map_size_insert in IH.
  destruct (m !! k); simpl in IH; lia.
Qed.

Lemma forRows_inserts (f : string -> string -> string)
    (body : Row -> gmap string string -> Ret (gmap string string))
    (pairs : list (string * string)) (m : gmap string string) :
  (forall kv m', body (pairCells kv) m' = (<[kv.1 := f kv.1 kv.2]> m', None)) ->
  forRows body (List.map pairCells pairs) m =
    (fold_left (fun m kv => <[kv.1 := f kv.1 kv.2]> m) pairs m, None).
Proof.
  intros Hbody. revert m. induction pairs as [|kv pairs IH]; intros m; [reflexivity|].
  cbn [List.map forRows fold_left]. now rewrite Hbody, IH.
Qed.

(** X11. For rows without NULL, [getUniqueConstraints] returns a map that
    holds, under the name of every constraint of the rows and under no other
    key, ALTER TABLE, the table name as it was passed, schema included, ADD
    CONSTRAINT, the name and the definition of the last row of that name; it
    holds no more entries than there are rows. *)
Theorem getUniqueConstraints_map (tableName : string) (db : DB)
    (pairs : list (string * string)) :
  db getUniqueConstraintsQuery [(SplitTableName tableName).1; (SplitTableName tableName).2]
    = Rows (List.map pairCells pairs) ->
  let result := run (getUniqueConstraints tableName) db in
  result.2 = None /\
  (forall n, ~ In n (List.map fst pairs) -> result.1 !! n = None) /\
  (forall before n d after,
     pairs = before ++ (n, d) :: after -> ~ In n (List.map fst after) ->
     result.1 !! n = Some ("ALTER TABLE " +:+ tableName +:+ " ADD CONSTRAINT " +:+ n
                             +:+ " " +:+ d)) /\
  (size result.1 <= length pairs)%nat.
Proof.
  intros Hdb. cbv zeta. unfold run. rewrite getUniqueConstraints_eq, Hdb. cbn [fst].
  rewrite (forRows_inserts (uniqueStatement tableName)) by reflexivity. cbn [fst snd].
  split; [reflexivity|]. split; [|split].
  - intros n Hn. now rewrite fold_insert_absent.
  - intros before n d after -> Hn. now rewrite fold_insert_last.
  - pose proof (fold_insert_size (uniqueStatement tableName) pairs ∅) as H.
    now rewrite map_size_empty in H.
Qed.

Lemma getUniqueConstraints_map_witness :
  (run (getUniqueConstraints "public.users") uniqueDB).1 !! "users_email_key" =
    Some "ALTER TABLE public.users ADD CONSTRAINT users_email_key UNIQUE (email)".
Proof.
  pose proof (getUniqueConstraints_map "public.users" uniqueDB
                [("users_email_key", "UNIQUE (email)")] eq_refl) as H.
  cbv zeta in H. destruct H as (_ & _ & H & _).
  apply (H [] "users_email_key" "UNIQUE (email)" []); [reflexivity | intros []].
Defined.

(** X12. For rows without NULL, [getTableCheckConstraints] returns a map
    that holds, under the name of every constraint of the rows and under no
    other key, the definition of the last row of that name; it holds no more
    entries than there are rows. *)
Theorem getTableCheckConstraints_map (tableName : string) (db : DB)
    (pairs : list (string * string)) :
  db getTableCheckConstraintsQuery
     [(SplitTableName tableName).1; (SplitTableName tableName).2]
    = Rows (List.map pairCells pairs) ->
  let result := run (getTableCheckConstraints tableName) db in
  result.2 = None /\
  (forall n, ~ In n (List.map fst pairs) -> result.1 !! n = None) /\
  (forall before n d after,
     pairs = before ++ (n, d) :: after -> ~ In n (List.map fst after) ->
     result.1 !! n = Some d) /\
  (size result.1 <= length pairs)%nat.
Proof.
  intros Hdb. cbv zeta. unfold run. rewrite getTableCheckConstraints_eq, Hdb. cbn [fst].
  rewrite (forRows_inserts (fun _ d => d)) by reflexivity. cbn [fst snd].
  split; [reflexivity|]. split; [|split].
  - intros n Hn. now rewrite (fold_insert_absent (fun _ d => d)).
  - intros before n d after -> Hn. now rewrite (fold_insert_last (fun _ d => d)).
  - pose proof (fold_insert_size (fun _ d => d) pairs ∅) as H.
    now rewrite map_size_empty in H.
Qed.

Lemma getTableCheckConstraints_map_witness :
  (run (getTableCheckConstraints "public.users") uniqueDB).1 !! "dates_check" =
    Some "CHECK (ends > starts)".
Proof.
  pose proof (getTableCheckConstraints_map "public.users" uniqueDB
                [("dates_check", "CHECK (starts > 0)"); ("dates_check", "CHECK (ends > starts)")]
                eq_refl) as H.
  cbv zeta in H. destruct H as (_ & _ & H & _).
  apply (H [("dates_check", "CHECK (starts > 0)")] "dates_check" "CHECK (ends > starts)" []);
    [reflexivity | intros []].
Defined.

(** ** The connection string *)

Lemma QueryEscape_byte (c : ascii) (rest : string) :
  allBytes isEscaped rest = true ->
  allBytes isEscaped (QueryEscape (String c EmptyString) +:+ rest) = true.
Proof.
  intros H. destruct c as [[] [] [] [] [] [] [] []]; exact H.
Qed.

Lemma QueryEscape_cons (c : ascii) (s : string) :
  QueryEscape (String c s) = QueryEscape (String c EmptyString) +:+ QueryEscape s.
Proof.
  cbn [QueryEscape]. destruct (Ascii.eqb c " "); [reflexivity|].
  now destruct (shouldEscape c).
Qed.

Lemma QueryEscape_bytes (s : string) : allBytes isEscaped (QueryEscape s) = true.
Proof.
  induction s as [|c s IH]; [reflexivity|].
  rewrite QueryEscape_cons. now apply QueryEscape_byte.
Qed.

Lemma allBytes_containsByte (ok : ascii -> bool) (s : string) (c : ascii) :
  allBytes ok s = true -> ok c = false -> containsByte c s = false.
Proof.
  induction s as [|d s IH]; [reflexivity|]. cbn [allBytes containsByte].
  intros [Hd Hs]%andb_true_iff Hc. rewrite IH by assumption.
  destruct (Ascii.eqb_spec d c) as [->|]; [congruence | reflexivity].
Qed.

Lemma delimiter_not_escaped (c : ascii) :
  containsByte c ":@/?#&= " = true -> isEscaped c = false.
Proof. destruct c as [[] [] [] [] [] [] [] []]; try discriminate; reflexivity. Qed.

(** X13. [postgresBuildDSN] writes the user and the password through
    [url.QueryEscape], the user before the colon and the password before the
    at sign; what [QueryEscape] writes holds letters, digits, the marks
    hyphen, underscore, period and tilde, plus signs and percent signs only,
    so neither holds a colon, an at sign, a slash, a question mark, a hash,
    an ampersand, an equals sign or a space. *)
Theorem postgresBuildDSN_credentials (lookupEnv : Env) (config : Config) :
  (exists tail,
     postgresBuildDSN lookupEnv config =
       "postgres://" +:+ QueryEscape (User config) +:+ ":" +:+ QueryEscape (Password config)
         +:+ "@" +:+ tail) /\
  (forall s, allBytes isEscaped (QueryEscape s) = true) /\
  (forall s c, containsByte c ":@/?#&= " = true -> containsByte c (QueryEscape s) = false).
Proof.
  split; [|split].
  - unfold postgresBuildDSN. eexists. reflexivity.
  - apply QueryEscape_bytes.
  - intros s c Hc. apply (allBytes_containsByte isEscaped); [apply QueryEscape_bytes|].
    now apply delimiter_not_escaped.
Qed.

Lemma postgresBuildDSN_credentials_witness :
  containsByte "@" (QueryEscape "p@ss:w/rd") = false /\
  containsByte ":" (QueryEscape "p@ss:w/rd") = false.
Proof.
  pose proof (postgresBuildDSN_credentials (fun _ => None) sampleConfig) as (_ & _ & H).
  split; apply H; reflexivity.
Defined.

Lemma unescape_byte (c : ascii) (rest : string) :
  unescape (QueryEscape (String c EmptyString) +:+ rest) = String c (unescape rest).
Proof. destruct c as [[] [] [] [] [] [] [] []]; reflexivity. Qed.

Lemma unescape_QueryEscape (s : string) : unescape (QueryEscape s) = s.
Proof.
  induction s as [|c s IH]; [reflexivity|].
  now rewrite QueryEscape_cons, unescape_byte, IH.
Qed.

Lemma QueryEscape_inj (s t : string) : QueryEscape s = QueryEscape t -> s = t.
Proof.
  intros H. rewrite <- (unescape_QueryEscape s), <- (unescape_QueryEscape t). now rewrite H.
Qed.

Lemma QueryEscape_no_delimiter (s : string) (c : ascii) :
  containsByte c ":@/?#&= " = true -> containsByte c (QueryEscape s) = false.
Proof.
  intros Hc. apply (allBytes_containsByte isEscaped); [apply QueryEscape_bytes|].
  now apply delimiter_not_escaped.
Qed.

(** Two texts that agree, each made of a part without the byte [c], the
    byte [c] and a rest, agree part by part. *)
Lemma cut_unique (c : ascii) (a b ra rb : string) :
  containsByte c a = false -> containsByte c b = false ->
  a +:+ String c ra = b +:+ String c rb -> a = b /\ ra = rb.
Proof.
  intros Ha Hb H. apply (f_equal (cutByte c)) in H.
  rewrite !cutByte_first in H by assumption. now injection H.
Qed.

(** X14. The connection string tells the user and the password: two
    configurations whose connection strings are the same, in whatever
    environments, have the same user and the same password. *)
Theorem postgresBuildDSN_tells_credentials (env1 env2 : Env) (config1 config2 : Config) :
  postgresBuildDSN env1 config1 = postgresBuildDSN env2 config2 ->
  User config1 = User config2 /\ Password config1 = Password config2.
Proof.
  unfold postgresBuildDSN. intros H. apply String.app_inj in H.
  change (":" +:+ ?x) with (String ":"%char x) in H.
  apply (cut_unique ":") in H as [Huser H];
    [|now apply QueryEscape_no_delimiter..].
  change ("@" +:+ ?x) with (String "@"%char x) in H.
  apply (cut_unique "@") in H as [Hpassword _];
    [|now apply QueryEscape_no_delimiter..].
  split; now apply QueryEscape_inj.
Qed.

Lemma postgresBuildDSN_tells_credentials_witness :
  User sampleConfig = "postgres" /\ Password sampleConfig = "p@ss:w/rd".
Proof.
  apply (postgresBuildDSN_tells_credentials (fun _ => None) (fun _ => None) sampleConfig
           {| User := "postgres"; Password := "p@ss:w/rd"; DbName := "app";
              Host := "127.0.0.1"; Port := 5432; Socket := EmptyString |}).
  reflexivity.
Defined.

(** ** A sequence default on a column that is not an integer *)

(** X15. A column read from the catalog whose default begins with nextval
    and an opening parenthesis, and whose type is none of smallint, integer,
    bigint, timestamp without time zone and time without time zone, stands in
    the text [buildDumpTableDDL] returns with the type of the catalog and
    with no DEFAULT clause: its line holds the quoted name, the type, the
    length, NOT NULL, identity and check clauses, and nothing of the
    sequence of its default. *)
Theorem sequence_default_dropped (row : Row) (cols : list column) (col : column)
    (rest : string) (checkOrder uniqueOrder : rangeOrder) (table : string)
    (before after : list column) (pkeyCols indexDefs foreignDefs policyDefs : list string)
    (checkConstraints uniqueConstraints : gmap string string) :
  getColumnsRow row cols = (cols ++ [col], None) ->
  ptrAt row 1 = Some ("nextval(" +:+ rest) ->
  ~ In (stringAt row 4)
      ["smallint"; "integer"; "bigint"; "timestamp without time zone";
       "time without time zone"] ->
  buildDumpTableDDL checkOrder uniqueOrder table (before ++ col :: after) pkeyCols indexDefs
    foreignDefs policyDefs checkConstraints uniqueConstraints =
    tableHead table before +:+ nl +:+ indent +:+ dq +:+ Name col +:+ dq +:+ " "
      +:+ stringAt row 4 +:+ lengthClause col +:+ notNullClause col
      +:+ identityClause col +:+ checkClause col
      +:+ tableRest after pkeyCols (checkOrder checkConstraints) indexDefs foreignDefs
            policyDefs (uniqueOrder uniqueConstraints).
Proof.
  intros Hrow Hdefault Htype.
  pose proof (getColumnsRow_default row cols col Hrow) as [_ Hauto].
  rewrite Hdefault in Hauto.
  assert (Hp : HasPrefix ("nextval(" +:+ rest) "nextval(" = true)
    by (apply HasPrefix_begins; now exists rest).
  rewrite Hp in Hauto.
  apply getColumnsRow_appends in Hrow as (col' & Heq & _ & Hty).
  apply app_inj_tail in Heq as [_ <-].
  assert (Hget : GetDataType col = stringAt row 4).
  { unfold GetDataType. rewrite Hty.
    repeat match goal with
    | |- context [String.eqb (stringAt row 4) ?t] =>
        destruct (String.eqb_spec (stringAt row 4) t) as [E|_];
        [exfalso; apply Htype; rewrite E; cbn; tauto|]
    end. reflexivity. }
  rewrite buildDumpTableDDL_column. unfold columnLine, columnHead, columnTail, defaultClause.
  rewrite Hauto, Hget. now text_norm.
Qed.

Lemma sequence_default_dropped_witness :
  buildDumpTableDDL forwardOrder forwardOrder "public.t" ([] ++ numericSequenceColumn :: [])
    [] [] [] [] ∅ ∅ =
    "CREATE TABLE public.t (" +:+ nl +:+ indent +:+ quoted "amount" +:+ " numeric NOT NULL"
      +:+ nl +:+ ");".
Proof.
  rewrite (sequence_default_dropped numericSequenceRow [] numericSequenceColumn
             "'amount_seq'::regclass)" forwardOrder forwardOrder "public.t" [] []
             [] [] [] [] ∅ ∅).
  - reflexivity.
  - reflexivity.
  - reflexivity.
  - cbn. intuition discriminate.
Defined.

(** ** The length of a character type *)

Lemma of_uint_acc_ge (d : Decimal.uint) (acc : positive) :
  Z.pos acc <= Z.pos (Pos.of_uint_acc d acc).
Proof.
  revert acc. induction d; intros acc; cbn [Pos.of_uint_acc]; [lia|..];
    (etransitivity; [|apply IHd]); lia.
Qed.

Lemma maxUint64_value : maxUint64 = 18446744073709551615.
Proof. reflexivity. Qed.

Lemma parseUintLoop_digit (c : ascii) (k : Z) (s : string) (n : Z) :
  digit c = Some k -> 0 <= k <= 9 -> 0 <= n -> n * 10 + k <= maxUint64 ->
  parseUintLoop (String c s) n = parseUintLoop s (n * 10 + k).
Proof.
  intros Hc Hk Hn Hmax. cbn [parseUintLoop]. rewrite Hc. rewrite maxUint64_value in *.
  change (18446744073709551615 / 10 + 1) with 1844674407370955162.
  destruct (Z.leb_spec 1844674407370955162 n); [lia|].
  destruct (Z.ltb_spec 18446744073709551615 (n * 10 + k)); [lia | reflexivity].
Qed.

Ltac parse_digit :=
  match goal with
  | |- parseUintLoop (String ?c _) ?n = _ =>
      let k := eval vm_compute in (digit c) in
      match k with
      | Some ?kv => rewrite (parseUintLoop_digit c kv _ n); [|reflexivity|lia|lia|try lia]
      end
  end.

Lemma parseUintLoop_acc (d : Decimal.uint) (acc : positive) :
  Z.pos (Pos.of_uint_acc d acc) <= maxUint64 ->
  parseUintLoop (NilEmpty.string_of_uint d) (Z.pos acc) = (Z.pos (Pos.of_uint_acc d acc), None).
Proof.
  revert acc. induction d; intros acc H; cbn [Pos.of_uint_acc NilEmpty.string_of_uint] in *;
    [reflexivity|..];
    match goal with
    | H : Z.pos (Pos.of_uint_acc d ?a) <= _ |- _ =>
        pose proof (of_uint_acc_ge d a) as Hge;
        parse_digit; rewrite <- (IHd a H); f_equal; lia
    end.
Qed.

Lemma parseUintLoop_zero (d : Decimal.uint) :
  Z.of_N (Pos.of_uint d) <= maxUint64 ->
  parseUintLoop (NilEmpty.string_of_uint d) 0 = (Z.of_N (Pos.of_uint d), None).
Proof.
  induction d; intros H; cbn [Pos.of_uint NilEmpty.string_of_uint] in *; [reflexivity|..].
  1: { parse_digit; try (rewrite maxUint64_value; lia). now apply IHd. }
  all: cbn [Z.of_N] in *;
    match goal with
    | H : Z.pos (Pos.of_uint_acc ?u ?a) <= _ |- _ =>
        pose proof (of_uint_acc_ge u a) as Hge;
        parse_digit; now rewrite <- (parseUintLoop_acc u a H)
    end.
Qed.

Lemma string_of_uint_head (d : Decimal.uint) :
  d <> Decimal.Nil ->
  exists c s, NilEmpty.string_of_uint d = String c s /\
    Ascii.eqb c "+" = false /\ Ascii.eqb c "-" = false.
Proof.
  destruct d; [contradiction|..]; intros _; cbn [NilEmpty.string_of_uint];
    eexists _, _; (split; [reflexivity|]); split; reflexivity.
Qed.

Lemma ParseUint_to_uint (p : positive) :
  Z.pos p <= maxUint64 ->
  ParseUint (NilEmpty.string_of_uint (Pos.to_uint p)) = (Z.pos p, None).
Proof.
  intros H. destruct (string_of_uint_head _ (Unsigned.to_uint_nonnil p)) as (c & s & E & _).
  unfold ParseUint. rewrite E, <- E.
  rewrite parseUintLoop_zero; rewrite Unsigned.of_to; [reflexivity | exact H].
Qed.

Lemma Atoi_fmt_d (n : Z) :
  - 2 ^ 63 <= n < 2 ^ 63 -> Atoi (fmt_d n) = (n, None).
Proof.
  intros Hn. unfold Atoi, fmt_d.
  assert (Hfit : forall p, Z.pos p <= 2 ^ 63 -> Z.pos p <= maxUint64)
    by (intros p Hp; rewrite maxUint64_value; lia).
  destruct n as [|p|p]; [reflexivity|..]; cbn [Z.to_int NilZero.string_of_int].
  - unfold NilZero.string_of_uint.
    destruct (Pos.to_uint p) eqn:Ed; [now apply Unsigned.to_uint_nonnil in Ed|..];
      rewrite <- Ed;
      destruct (string_of_uint_head _ (Unsigned.to_uint_nonnil p)) as (c & s & E & Hplus & Hminus);
      unfold ParseInt; rewrite E, Hplus, Hminus; cbn [orb]; rewrite <- E;
      (rewrite ParseUint_to_uint by (apply Hfit; lia));
      cbn [negb andb];
      (destruct (Z.leb_spec (2 ^ 63) (Z.pos p)); [lia | reflexivity]).
  - unfold NilZero.string_of_uint.
    destruct (Pos.to_uint p) eqn:Ed; [now apply Unsigned.to_uint_nonnil in Ed|..];
      rewrite <- Ed;
      unfold ParseInt; change (Ascii.eqb "-" "-") with true;
      change (Ascii.eqb "-" "+") with false; cbn [orb];
      (rewrite ParseUint_to_uint by (apply Hfit; lia));
      cbn [negb andb];
      (destruct (Z.ltb_spec (2 ^ 63) (Z.pos p)); [lia | reflexivity]).
Qed.

(** X16. A character length that the catalog gives as the decimal text of a
    number between one and the largest [int] is read by [getColumns] as that
    number, and the text [buildDumpTableDDL] returns holds the same text in
    parentheses between the type of the column and its NOT NULL clause; a
    column whose character length is NULL has length zero, and its type is
    followed by no parenthesis. *)
Theorem character_length_round_trip (row : Row) (cols : list column) :
  Scan [destString; destStringPtr; destString; destStringPtr; destString;
        destStringPtr; destStringPtr; destStringPtr] row = None ->
  (forall n, 0 < n < 2 ^ 63 -> ptrAt row 3 = Some (fmt_d n) ->
     exists col, getColumnsRow row cols = (cols ++ [col], None) /\
       Length col = n /\
       forall (checkOrder uniqueOrder : rangeOrder) (table : string)
              (before after : list column)
              (pkeyCols indexDefs foreignDefs policyDefs : list string)
              (checkConstraints uniqueConstraints : gmap string string),
         buildDumpTableDDL checkOrder uniqueOrder table (before ++ col :: after) pkeyCols
           indexDefs foreignDefs policyDefs checkConstraints uniqueConstraints =
           tableHead table before +:+ nl +:+ indent +:+ dq +:+ Name col +:+ dq +:+ " "
             +:+ GetDataType col +:+ "(" +:+ fmt_d n +:+ ")"
             +:+ notNullClause col +:+ defaultClause col +:+ columnTail col
             +:+ tableRest after pkeyCols (checkOrder checkConstraints) indexDefs
                   foreignDefs policyDefs (uniqueOrder uniqueConstraints)) /\
  (ptrAt row 3 = None ->
     exists col, getColumnsRow row cols = (cols ++ [col], None) /\
       Length col = 0 /\
       forall (checkOrder uniqueOrder : rangeOrder) (table : string)
              (before after : list column)
              (pkeyCols indexDefs foreignDefs policyDefs : list string)
              (checkConstraints uniqueConstraints : gmap string string),
         buildDumpTableDDL checkOrder uniqueOrder table (before ++ col :: after) pkeyCols
           indexDefs foreignDefs policyDefs checkConstraints uniqueConstraints =
           tableHead table before +:+ nl +:+ indent +:+ dq +:+ Name col +:+ dq +:+ " "
             +:+ GetDataType col
             +:+ notNullClause col +:+ defaultClause col +:+ columnTail col
             +:+ tableRest after pkeyCols (checkOrder checkConstraints) indexDefs
                   foreignDefs policyDefs (uniqueOrder uniqueConstraints)).
Proof.
  intros Hscan. split.
  - intros n Hn Hlen. unfold getColumnsRow. rewrite Hscan, Hlen, Atoi_fmt_d by lia.
    eexists. split; [reflexivity|]. split; [reflexivity|]. intros.
    rewrite buildDumpTableDDL_column. unfold columnLine, columnHead, lengthClause.
    cbn [Length]. destruct (Z.ltb_spec 0 n); [|lia]. now text_norm.
  - intros Hlen. unfold getColumnsRow. rewrite Hscan, Hlen.
    eexists. split; [reflexivity|]. split; [reflexivity|]. intros.
    rewrite buildDumpTableDDL_column. unfold columnLine, columnHead, lengthClause.
    cbn [Length Z.ltb Z.compare]. now text_norm.
Qed.

Lemma character_length_round_trip_witness :
  exists col, getColumnsRow emailRow [] = ([col], None) /\
    Length col = 255 /\
    buildDumpTableDDL forwardOrder forwardOrder "public.users" ([] ++ col :: []) [] [] [] []
      ∅ ∅ =
      "CREATE TABLE public.users (" +:+ nl +:+ indent +:+ quoted "email"
        +:+ " character varying(255) NOT NULL DEFAULT 'nobody'::character varying"
        +:+ nl +:+ ");".
Proof.
  pose proof (character_length_round_trip emailRow [] eq_refl) as [H _].
  destruct (H 255) as (col & Hrow & Hlen & Hout); [lia | reflexivity |].
  exists col. split; [exact Hrow|]. split; [exact Hlen|].
  rewrite Hout. cbn [List.app] in Hrow. injection Hrow as <-. reflexivity.
Defined.
